(** * rmqrcode: segment optimizer and Byte-mode encoder

    A shallow embedding of [src/rmqrcode/segments.py] and
    [src/rmqrcode/encoder/byte_encoder.py].

    Conventions of the embedding.
    - A Python [str] is a list of code points ([N]).  The statements are
      about strings of Unicode scalar values ([scalar]); on a lone
      surrogate [str.encode("utf-8")] raises [UnicodeEncodeError], which
      the embedding does not represent.
    - Python integers are [Z]; loop counters that range over [range(k)]
      are [nat].
    - A bit string (a [str] of the characters '0' and '1') is a [string].
    - The tables [self.dp] and [self.parents] are nested lists, as in the
      source, and the optimizer instance is a record of both.
    - Exceptions are the constructors of [outcome]; the one unbounded loop
      ([_reconstruct_path]) takes fuel. *)

From Stdlib Require Import ZArith NArith PArith List String Ascii Bool Lia.
From Stdlib Require Import ZifyNat ZifyN Sorted.
Import ListNotations.
Open Scope Z_scope.

(** [lia] also over [/] and [mod]. *)
Ltac Zify.zify_post_hook ::= Z.to_euclidean_division_equations.

(** Every character of an ASCII literal is a scalar value. *)
Ltac scalar_text :=
  repeat (apply Forall_cons; [split; [left; reflexivity | discriminate]|]);
  apply Forall_nil.

(** The two components of an equation between pairs. *)
Ltac pair_eq H E1 E2 :=
  pose proof (f_equal fst H) as E1; pose proof (f_equal snd H) as E2;
  cbn [fst snd] in E1, E2.

(** ** Python strings and built-ins *)

Definition char := N.
Definition str := list char.

(** [len(s)] *)
Definition len {A} (s : list A) : Z := Z.of_nat (List.length s).

(** A code point that is a Unicode scalar value: at most U+10FFFF and not
    a surrogate (U+D800..U+DFFF). *)
Definition scalar (c : char) : Prop :=
  (c < 0xD800 \/ 0xDFFF < c)%N /\ (c <= 0x10FFFF)%N.

(** [c.encode("utf-8")] for one code point: one to four bytes. *)
Definition utf8_char (c : char) : list N :=
  (if c <? 0x80 then [c]
   else if c <? 0x800 then [0xC0 + c / 0x40; 0x80 + c mod 0x40]
   else if c <? 0x10000 then
     [0xE0 + c / 0x1000; 0x80 + (c / 0x40) mod 0x40; 0x80 + c mod 0x40]
   else
     [0xF0 + c / 0x40000; 0x80 + (c / 0x1000) mod 0x40;
      0x80 + (c / 0x40) mod 0x40; 0x80 + c mod 0x40])%N.

(** [s.encode("utf-8")] *)
Definition utf8 (s : str) : list N := flat_map utf8_char s.

(** [bin(n)[2:]] for [n >= 0]: the binary digits of [n], most significant
    first; "0" for zero. *)
Fixpoint bin_pos (p : positive) : string :=
  match p with
  | xH => "1"
  | xO q => bin_pos q ++ "0"
  | xI q => bin_pos q ++ "1"
  end%string.

Definition bin (n : N) : string :=
  match n with
  | N0 => "0"%string
  | Npos p => bin_pos p
  end.

(** [s.zfill(width)] on a string without sign: pads with '0' on the left
    up to [width], and leaves a string that is already as long alone. *)
Fixpoint zeros (k : nat) : string :=
  match k with
  | O => EmptyString
  | S k' => String "0"%char (zeros k')
  end.

Definition zfill (s : string) (width : Z) : string :=
  (zeros (Z.to_nat (width - Z.of_nat (String.length s))) ++ s)%string.

(** A string made of the characters '0' and '1' only. *)
Fixpoint binaryb (s : string) : bool :=
  match s with
  | EmptyString => true
  | String c r => (Ascii.eqb c "0" || Ascii.eqb c "1") && binaryb r
  end.

(** The number that the binary digits of [s] denote, most significant
    digit first, continuing from [acc]. *)
Fixpoint bits_value (acc : N) (s : string) : N :=
  match s with
  | EmptyString => acc
  | String c r => bits_value (2 * acc + (if Ascii.eqb c "1" then 1 else 0)) r
  end.

(** Python's [l[i]]: a negative index counts from the end, an index out
    of range raises [IndexError] ([None]). *)
Definition py_index {A} (l : list A) (i : Z) : option A :=
  if i <? 0 then
    if - i <=? len l then nth_error l (Z.to_nat (len l + i)) else None
  else nth_error l (Z.to_nat i).

(** ** encoder/byte_encoder.py *)

Module ByteEncoder.

Definition mode_indicator : string := "011".

Definition _encoded_bits (s : str) : string :=
    fold_left (fun res byte => (res ++ zfill (bin byte) 8)%string)
              (utf8 s) EmptyString.

Definition encode (data : str) (character_count_indicator_length : Z)
    : string :=
    let res := mode_indicator in
    let res := (res ++ zfill (bin (N.of_nat (List.length data)))
                             character_count_indicator_length)%string in
    let res := (res ++ _encoded_bits data)%string in
    res.

Definition length (data : str) (character_count_indicator_length : Z) : Z :=
    Z.of_nat (String.length mode_indicator)
    + character_count_indicator_length
    + 8 * len (utf8 data).

End ByteEncoder.

(** ** The other mode encoders

    Only the Byte encoder is among the sources; segments.py calls
    [length] and [is_valid_characters] of all four. *)

Definition is_digit (c : char) : bool := ((48 <=? c) && (c <=? 57))%N.
Definition is_upper (c : char) : bool := ((65 <=? c) && (c <=? 90))%N.

Module NumericEncoder.

(** Modelled from the spec: encoder/numeric_encoder.py is missing.
    "Numeric accepts digits only". *)
Definition is_valid_characters (data : str) : bool := forallb is_digit data.

(** Modelled from the spec: encoder/numeric_encoder.py is missing.  The
    mode indicator (as wide as the Byte and Kanji ones, 3 bits), the
    count indicator, and "groups of 3 digits -> 10 bits; trailing group
    of 2 -> 7 bits; trailing group of 1 -> 4 bits". *)
Definition length (data : str) (character_count_indicator_length : Z) : Z :=
    3 + character_count_indicator_length
    + 10 * (len data / 3)
    + (if len data mod 3 =? 1 then 4
       else if len data mod 3 =? 2 then 7 else 0).

End NumericEncoder.

Module AlphanumericEncoder.

(** Modelled from the spec: encoder/alphanumeric_encoder.py is missing.
    "Alphanumeric accepts digits, uppercase letters, and a fixed symbol
    subset" (the subset is the parameter [symbol]). *)
Definition is_valid_characters (symbol : char -> bool) (data : str) : bool :=
    forallb (fun c => is_digit c || is_upper c || symbol c) data.

(** Modelled from the spec: encoder/alphanumeric_encoder.py is missing.
    The mode indicator, the count indicator, and "groups of 2 symbols ->
    11 bits; trailing single symbol -> 6 bits". *)
Definition length (data : str) (character_count_indicator_length : Z) : Z :=
    3 + character_count_indicator_length
    + 11 * (len data / 2) + 6 * (len data mod 2).

End AlphanumericEncoder.

Module KanjiEncoder.

(** Modelled from the spec: encoder/kanji_encoder.py is missing.
    "Kanji accepts only characters whose encoding falls into two
    specific double-byte code-point bands" (membership of one character
    is the parameter [in_band]). *)
Definition is_valid_characters (in_band : char -> bool) (data : str) : bool :=
    forallb in_band data.

(** Modelled from the spec: encoder/kanji_encoder.py is missing.  The
    mode indicator, the count indicator, and "each character mapped ...
    to a 13-bit value".  tests/encoder/kanji_encoder_test.py: the length
    of a two-character string at width 5 is 34 = 3 + 5 + 2 * 13. *)
Definition length (data : str) (character_count_indicator_length : Z) : Z :=
    3 + character_count_indicator_length + 13 * len data.

End KanjiEncoder.

(** ** segments.py *)

Inductive Encoder := Numeric | Alphanumeric | Byte | Kanji.

Definition encoders : list Encoder := [Numeric; Alphanumeric; Byte; Kanji].

(** [class Segment(TypedDict)] *)
Module Segment.
Record t := mk { data : str; encoder_class : Encoder }.
End Segment.

(** A position of the tables, [(n, mode, unfilled_length)]. *)
Definition cell := (Z * Z * Z)%type.

(** [class Best(TypedDict)] *)
Module Best.
Record t := mk { cost : Z; index : cell }.
End Best.

(** The entry of [rMQRVersions] for one version, as far as segments.py
    reads it.  format/rmqr_versions.py is missing: the table is a
    parameter of the development. *)
Record QrVersion (ErrorCorrectionLevel : Type) := {
  character_count_indicator_length : Encoder -> Z;
  number_of_data_bits : ErrorCorrectionLevel -> Z
}.
Arguments character_count_indicator_length {_} _ _.
Arguments number_of_data_bits {_} _ _.

(** What a call does besides returning: the exceptions of the source. *)
Inductive outcome (A : Type) :=
| Ok (a : A)
| DataTooLongError
| KeyError
| IndexError.
Arguments Ok {A} a.
Arguments DataTooLongError {A}.
Arguments KeyError {A}.
Arguments IndexError {A}.

(** The built-in [sum]. *)
Definition sum (l : list Z) : Z := fold_left Z.add l 0.

(** Nested tables, read and written at positions the loops keep in range
    ([n <= len(data) <= 360], [mode] in [range(4)], [unfilled_length] in
    [range(3)]). *)
Definition table (A : Type) := list (list (list A)).

Definition get3 {A} (d : A) (t : table A) (n mode u : nat) : A :=
  nth u (nth mode (nth n t []) []) d.

Fixpoint update {A} (i : nat) (f : A -> A) (l : list A) {struct l}
  : list A :=
  match l with
  | [] => []
  | x :: r => match i with
              | O => f x :: r
              | S j => x :: update j f r
              end
  end.

Definition set3 {A} (t : table A) (n mode u : nat) (v : A) : table A :=
  update n (update mode (update u (fun _ => v))) t.

(** [t[i][j][k]] for an index held in a tuple: Python indexing. *)
Definition py_get3 {A} (t : table A) (i : cell) : option A :=
  let '(n, mode, u) := i in
  match py_index t n with
  | None => None
  | Some plane =>
      match py_index plane mode with
      | None => None
      | Some row => py_index row u
      end
  end.

(** [data[n]] for [n] in [range(len(data))], a one-character string. *)
Definition char_at (data : str) (n : nat) : str :=
  match nth_error data n with
  | Some c => [c]
  | None => []
  end.

Definition MAX_CHARACTER : Z := 360.
Definition INF : Z := 100000.

(** The instance attributes [self.dp] and [self.parents].
    ([self.qr_version] is assigned by [compute] before every read; the
    helpers take it as an argument.) *)
Record SegmentOptimizer := {
  dp : table Z;
  parents : table cell
}.

(** [SegmentOptimizer.__init__] *)
Definition __init__ : SegmentOptimizer :=
  {| dp := repeat (repeat (repeat INF 3) 4) (Z.to_nat (MAX_CHARACTER + 1));
     parents := repeat (repeat (repeat (-1, -1, -1) 3) 4)
                       (Z.to_nat (MAX_CHARACTER + 1)) |}.

(** ** A sample configuration

    Concrete collaborators on which the statements below are evaluated:
    the symbols of the QR alphanumeric alphabet, a band of ideographs, two
    correction levels, and one version with count-indicator widths
    4, 3, 3, 2. *)

(** An ASCII literal as a [str]. *)
Definition text (s : string) : str := map N_of_ascii (list_ascii_of_string s).

Definition sample_symbol (c : char) : bool :=
  existsb (N.eqb c) [32; 36; 37; 42; 43; 45; 46; 47; 58]%N.

Definition sample_band (c : char) : bool :=
  ((0x4E00 <=? c) && (c <=? 0x9FA5))%N.

Inductive sample_level := level_M | level_H.

Definition sample_version : QrVersion sample_level :=
  {| character_count_indicator_length :=
       fun e => match e with
                | Numeric => 4 | Alphanumeric => 3 | Byte => 3 | Kanji => 2
                end;
     number_of_data_bits :=
       fun l => match l with level_M => 48 | level_H => 24 end |}.

Definition sample_versions (version : string)
  : option (QrVersion sample_level) :=
  if String.eqb version "R7x43" then Some sample_version else None.



(** A version whose headers reach [INF], and whose capacity does too. *)
Definition wide_version : QrVersion sample_level :=
  {| character_count_indicator_length := fun _ => INF;
     number_of_data_bits := fun _ => INF |}.

Definition wide_versions (version : string)
  : option (QrVersion sample_level) := Some wide_version.

Section Optimizer.

(** The parts of the repository that segments.py uses and that are not
    among the sources. *)
Variable alphanumeric_symbol : char -> bool.
Variable kanji_band : char -> bool.
Variable ErrorCorrectionLevel : Type.
Variable rMQRVersions : string -> option (QrVersion ErrorCorrectionLevel).

(** [encoder_class.length(data, w)] for an element of [encoders]. *)
Definition encoder_length (e : Encoder) (data : str) (w : Z) : Z :=
    match e with
    | Numeric => NumericEncoder.length data w
    | Alphanumeric => AlphanumericEncoder.length data w
    | Byte => ByteEncoder.length data w
    | Kanji => KanjiEncoder.length data w
    end.

(** Modelled from the spec: [ByteEncoder.is_valid_characters] is not in
    byte_encoder.py; "Byte accepts any sequence (fallback, always
    valid)".  [encoder_class.is_valid_characters(data)] for an element of
    [encoders]. *)
Definition encoder_is_valid_characters (e : Encoder) (data : str) : bool :=
    match e with
    | Numeric => NumericEncoder.is_valid_characters data
    | Alphanumeric =>
        AlphanumericEncoder.is_valid_characters alphanumeric_symbol data
    | Byte => true
    | Kanji => KanjiEncoder.is_valid_characters kanji_band data
    end.

(** [encoders[mode]] for [mode] in [range(4)]. *)
Definition encoder_at (mode : nat) : Encoder := nth mode encoders Kanji.

Definition compute_length (segments : list Segment.t) (version_name : string)
    : outcome Z :=
    match segments with
    | [] => Ok (sum [])
    | _ :: _ =>
        match rMQRVersions version_name with
        | None => KeyError
        | Some v =>
            Ok (sum (map (fun s =>
                       encoder_length (Segment.encoder_class s) (Segment.data s)
                         (character_count_indicator_length v
                            (Segment.encoder_class s)))
                     segments))
        end
    end.

Section Methods.

(** [self.qr_version] *)
Variable qr_version : QrVersion ErrorCorrectionLevel.

Definition _compute_new_state_without_mode_changing
        (character : str) (new_mode : nat) (unfilled_length : nat) : Z * nat :=
      match encoder_at new_mode with
      | Numeric =>
          let new_length := ((unfilled_length + 1) mod 3)%nat in
          let cost := if (unfilled_length =? 0)%nat then 4 else 3 in
          (cost, new_length)
      | Alphanumeric =>
          let new_length := ((unfilled_length + 1) mod 2)%nat in
          let cost := if (unfilled_length =? 0)%nat then 6 else 5 in
          (cost, new_length)
      | Byte =>
          let new_length := 0%nat in
          let cost := 8 * len (utf8 character) in
          (cost, new_length)
      | Kanji =>
          let new_length := 0%nat in
          let cost := 13 in
          (cost, new_length)
      end.

Definition _compute_new_state_with_mode_changing
        (character : str) (new_mode : nat) (unfilled_length : nat) : Z * nat :=
      let encoder_class := encoder_at new_mode in
      let character_count_indicator_length :=
        character_count_indicator_length qr_version encoder_class in
      let new_length :=
        match encoder_class with
        | Numeric | Alphanumeric => 1%nat
        | Byte | Kanji => 0%nat
        end in
      let cost :=
        encoder_length encoder_class character character_count_indicator_length in
      (cost, new_length).

    (** Lines 112-116: the base case for one [mode]. *)
Definition base_case (self : SegmentOptimizer) (mode : nat)
      : SegmentOptimizer :=
      let encoder_class := encoder_at mode in
      let character_count_indicator_length :=
        character_count_indicator_length qr_version encoder_class in
      {| dp := set3 (dp self) 0 mode 0
                 (encoder_length encoder_class []
                    character_count_indicator_length);
         parents := set3 (parents self) 0 mode 0 (0, 0, 0) |}.

    (** Lines 125-139: the body of the loop over [new_mode]. *)
Definition relax (data : str) (n mode unfilled_length : nat)
        (self : SegmentOptimizer) (new_mode : nat) : SegmentOptimizer :=
      if negb (encoder_is_valid_characters (encoder_at new_mode)
                 (char_at data n))
      then self
      else
        let '(cost, new_length) :=
          if (new_mode =? mode)%nat
          then _compute_new_state_without_mode_changing
                 (char_at data n) new_mode unfilled_length
          else _compute_new_state_with_mode_changing
                 (char_at data n) new_mode unfilled_length in
        if get3 0 (dp self) n mode unfilled_length + cost
           <? get3 0 (dp self) (n + 1) new_mode new_length
        then
          {| dp := set3 (dp self) (n + 1) new_mode new_length
                     (get3 0 (dp self) n mode unfilled_length + cost);
             parents := set3 (parents self) (n + 1) new_mode new_length
                          (Z.of_nat n, Z.of_nat mode,
                           Z.of_nat unfilled_length) |}
        else self.

    (** Lines 120-139: the body of the loop over [unfilled_length]. *)
Definition relax_state (data : str) (n mode : nat)
        (self : SegmentOptimizer) (unfilled_length : nat) : SegmentOptimizer :=
      if get3 0 (dp self) n mode unfilled_length =? INF then self
      else fold_left (relax data n mode unfilled_length) (seq 0 4) self.

    (** Lines 118-139: the body of the loop over [n]. *)
Definition relax_row (data : str) (self : SegmentOptimizer) (n : nat)
      : SegmentOptimizer :=
      fold_left
        (fun self mode => fold_left (relax_state data n mode) (seq 0 3) self)
        (seq 0 4) self.

Definition _compute_costs (data : str) (self : SegmentOptimizer)
      : SegmentOptimizer :=
      let self := fold_left base_case (seq 0 (List.length encoders)) self in
      fold_left (relax_row data) (seq 0 (List.length data)) self.

End Methods.

Definition _find_best (self : SegmentOptimizer) (data : str) : Best.t :=
    let best := INF in
    let best_index := (-1, -1, -1) in
    let '(best, best_index) :=
      fold_left
        (fun acc mode =>
           fold_left
             (fun acc unfilled_length =>
                let '(best, best_index) := acc in
                if get3 0 (dp self) (List.length data) mode unfilled_length
                   <? best
                then (get3 0 (dp self) (List.length data) mode unfilled_length,
                      (len data, Z.of_nat mode, Z.of_nat unfilled_length))
                else (best, best_index))
             (seq 0 3) acc)
        (seq 0 4) (best, best_index) in
    {| Best.cost := best; Best.index := best_index |}.

(** The [while] loop of [_reconstruct_path]; [None] when the fuel runs
    out before [index[0]] reaches 0. *)
Fixpoint reconstruct_loop (fuel : nat) (self : SegmentOptimizer)
      (path : list cell) (index : cell) : option (outcome (list cell)) :=
    if negb (fst (fst index) =? 0) then
      match fuel with
      | O => None
      | S fuel' =>
          let path := path ++ [index] in
          match py_get3 (parents self) index with
          | None => Some IndexError
          | Some index => reconstruct_loop fuel' self path index
          end
      end
    else Some (Ok (rev path)).

Definition _reconstruct_path (fuel : nat) (self : SegmentOptimizer)
      (best_index : cell) : option (outcome (list cell)) :=
    reconstruct_loop fuel self [] best_index.

(** The body of the loop of [_compute_segments], on the local variables
    [(segments, current_segment_data, current_mode)]. *)
Definition segments_step (data : str)
      (acc : outcome (list Segment.t * str * Z)) (p : cell)
    : outcome (list Segment.t * str * Z) :=
    match acc with
    | Ok (segments, current_segment_data, current_mode) =>
        if current_mode =? -1 then
          match py_index data (fst (fst p) - 1) with
          | None => IndexError
          | Some c => Ok (segments, current_segment_data ++ [c], snd (fst p))
          end
        else if current_mode =? snd (fst p) then
          match py_index data (fst (fst p) - 1) with
          | None => IndexError
          | Some c => Ok (segments, current_segment_data ++ [c], current_mode)
          end
        else
          match py_index encoders current_mode with
          | None => IndexError
          | Some e =>
              match py_index data (fst (fst p) - 1) with
              | None => IndexError
              | Some c =>
                  Ok (segments ++ [Segment.mk current_segment_data e],
                      [c], snd (fst p))
              end
          end
    | DataTooLongError => DataTooLongError
    | KeyError => KeyError
    | IndexError => IndexError
    end.

Definition _compute_segments (path : list cell) (data : str)
    : outcome (list Segment.t) :=
    match fold_left (segments_step data) path (Ok ([], [], -1)) with
    | Ok (segments, current_segment_data, current_mode) =>
        if negb (current_mode =? -1) then
          match py_index encoders current_mode with
          | None => IndexError
          | Some e => Ok (segments ++ [Segment.mk current_segment_data e])
          end
        else Ok segments
    | DataTooLongError => DataTooLongError
    | KeyError => KeyError
    | IndexError => IndexError
    end.

(** [SegmentOptimizer.compute]: the instance after the call and what the
    call did; [None] when [fuel] does not suffice for the loop of
    [_reconstruct_path]. *)
Definition compute (fuel : nat) (self : SegmentOptimizer) (data : str)
      (version : string) (ecc : ErrorCorrectionLevel)
    : option (SegmentOptimizer * outcome (list Segment.t)) :=
    if len data >? MAX_CHARACTER then Some (self, DataTooLongError)
    else
      match rMQRVersions version with
      | None => Some (self, KeyError)
      | Some qr_version =>
          let self := _compute_costs qr_version data self in
          let best := _find_best self data in
          if Best.cost best >? number_of_data_bits qr_version ecc
          then Some (self, DataTooLongError)
          else
            match _reconstruct_path fuel self (Best.index best) with
            | None => None
            | Some (Ok path) => Some (self, _compute_segments path data)
            | Some DataTooLongError => Some (self, DataTooLongError)
            | Some KeyError => Some (self, KeyError)
            | Some IndexError => Some (self, IndexError)
            end
      end.



(** ** Notions used by the statements *)

(** A mode's index in [encoders]. *)
Definition mode_of (e : Encoder) : nat :=
  match e with
  | Numeric => 0 | Alphanumeric => 1 | Byte => 2 | Kanji => 3
  end%nat.

(** The sum that [compute_length] forms, for a version's table entry. *)
Definition total_length (v : QrVersion ErrorCorrectionLevel)
    (segments : list Segment.t) : Z :=
  sum (map (fun s =>
              encoder_length (Segment.encoder_class s) (Segment.data s)
                (character_count_indicator_length v (Segment.encoder_class s)))
           segments).

(** A mode-partition of [data]: segments that concatenate to [data], each
    made of characters its mode accepts. *)
Definition valid_segment (s : Segment.t) : Prop :=
  encoder_is_valid_characters (Segment.encoder_class s) (Segment.data s) = true.

Definition partition_of (data : str) (segments : list Segment.t) : Prop :=
  List.concat (map Segment.data segments) = data /\ Forall valid_segment segments.

(** What the statements assume of a version's table entry: every
    count-indicator width is a non-negative number of bits, and the header
    of an empty segment stays below the sentinel [INF]. *)
Definition widths_ok (v : QrVersion ErrorCorrectionLevel) : Prop :=
  Forall (fun e => 0 <= character_count_indicator_length v e
                   /\ 3 + character_count_indicator_length v e < INF)
         encoders.

(** The tables have the shape [__init__] gives them. *)
Definition shaped {A} (t : table A) : Prop :=
  List.length t = 361%nat /\
  forall n, (n < 361)%nat ->
    List.length (nth n t []) = 4%nat /\
    forall mode, (mode < 4)%nat ->
      List.length (nth mode (nth n t []) []) = 3%nat.

(** [(cost, new_length)] of the transition that [relax] tries. *)
Definition transition (v : QrVersion ErrorCorrectionLevel) (data : str)
    (n mode unfilled_length new_mode : nat) : Z * nat :=
  if (new_mode =? mode)%nat
  then _compute_new_state_without_mode_changing
         (char_at data n) new_mode unfilled_length
  else _compute_new_state_with_mode_changing v
         (char_at data n) new_mode unfilled_length.

(** The cost and the parent stored at a position. *)
Definition dpv (self : SegmentOptimizer) (n mode u : nat) : Z :=
  get3 0 (dp self) n mode u.

Definition parent_of (self : SegmentOptimizer) (n mode u : nat) : cell :=
  get3 (0, 0, 0) (parents self) n mode u.

(** The transition from [(n, mode, u)] into [new_mode] has been relaxed:
    its target holds at most the cost through it. *)
Definition edge_ok (v : QrVersion ErrorCorrectionLevel) (data : str)
    (self : SegmentOptimizer) (n mode u new_mode : nat) : Prop :=
  encoder_is_valid_characters (encoder_at new_mode) (char_at data n) = true ->
  dpv self n mode u <> INF ->
  dpv self (n + 1) new_mode (snd (transition v data n mode u new_mode))
  <= dpv self n mode u + fst (transition v data n mode u new_mode).

(** The position [(n + 1, mode, u)], when reached, records the
    transition that gave it its cost. *)
Definition has_parent (v : QrVersion ErrorCorrectionLevel) (data : str)
    (self : SegmentOptimizer) (n mode u : nat) : Prop :=
  dpv self (n + 1) mode u <> INF ->
  exists mode0 u0,
    (mode0 < 4)%nat /\ (u0 < 3)%nat /\
    parent_of self (n + 1) mode u
      = (Z.of_nat n, Z.of_nat mode0, Z.of_nat u0) /\
    dpv self n mode0 u0 <> INF /\
    encoder_is_valid_characters (encoder_at mode) (char_at data n) = true /\
    transition v data n mode0 u0 mode
      = (dpv self (n + 1) mode u - dpv self n mode0 u0, u).

(** The invariant of [_compute_costs] on a fresh instance: all transitions
    out of the rows below [filled] are relaxed, the rows up to [linked]
    carry parents, the rows above [linked] are untouched. *)
Record row_inv (v : QrVersion ErrorCorrectionLevel) (data : str)
    (filled linked : nat) (self : SegmentOptimizer) : Prop := {
  inv_shape_dp : shaped (dp self);
  inv_shape_parents : shaped (parents self);
  inv_root : forall mode, (mode < 4)%nat ->
    dpv self 0 mode 0
    = encoder_length (encoder_at mode) []
        (character_count_indicator_length v (encoder_at mode));
  inv_root_inf : forall mode u, (mode < 4)%nat -> (0 < u < 3)%nat ->
    dpv self 0 mode u = INF;
  inv_bound : forall n mode u,
    (1 <= n <= 360)%nat -> (mode < 4)%nat -> (u < 3)%nat ->
    dpv self n mode u <= INF;
  inv_fresh : forall n mode u,
    (linked < n <= 360)%nat -> (mode < 4)%nat -> (u < 3)%nat ->
    dpv self n mode u = INF;
  inv_edges : forall n mode u new_mode,
    (n < filled)%nat -> (mode < 4)%nat -> (u < 3)%nat -> (new_mode < 4)%nat ->
    edge_ok v data self n mode u new_mode;
  inv_parents : forall n mode u,
    (n + 1 <= linked)%nat -> (mode < 4)%nat -> (u < 3)%nat ->
    has_parent v data self n mode u
}.

(** The [unfilled_length] of a run of [r] characters in one mode. *)
Definition phase (e : Encoder) (r : nat) : nat :=
  match e with
  | Numeric => (r mod 3)%nat
  | Alphanumeric => (r mod 2)%nat
  | Byte | Kanji => 0%nat
  end.

(** The order in which [_find_best] visits [(mode, unfilled_length)]. *)
Definition cells : list (nat * nat) :=
  flat_map (fun mode => map (fun u => (mode, u)) (seq 0 3)) (seq 0 4).

Definition lex_lt (a b : nat * nat) : Prop :=
  (fst a < fst b)%nat \/ (fst a = fst b /\ (snd a < snd b)%nat).

(** One comparison of [_find_best]. *)
Definition best_step (self : SegmentOptimizer) (data : str)
    (acc : Z * cell) (c : nat * nat) : Z * cell :=
  let '(best, best_index) := acc in
  let '(mode, u) := c in
  if dpv self (List.length data) mode u <? best
  then (dpv self (List.length data) mode u,
        (len data, Z.of_nat mode, Z.of_nat u))
  else (best, best_index).

(** The path that [_reconstruct_path] follows back from a position. *)
Inductive path_to (self : SegmentOptimizer)
  : nat -> nat -> nat -> list cell -> Prop :=
| path_root mode u : path_to self 0 mode u []
| path_step n mode u mode0 u0 p :
    (mode0 < 4)%nat -> (u0 < 3)%nat ->
    parent_of self (S n) mode u
      = (Z.of_nat n, Z.of_nat mode0, Z.of_nat u0) ->
    path_to self n mode0 u0 p ->
    path_to self (S n) mode u
      (p ++ [(Z.of_nat (S n), Z.of_nat mode, Z.of_nat u)]).

(** The local variables of [_compute_segments] after the path to
    [(k, mode, u)]: closed segments [segs], and the open run [cur]. *)
Definition seg_state (v : QrVersion ErrorCorrectionLevel) (data : str)
    (self : SegmentOptimizer) (k mode u : nat)
    (segs : list Segment.t) (cur : str) : Prop :=
  List.concat (map Segment.data segs) ++ cur = firstn k data /\
  total_length v segs
    + encoder_length (encoder_at mode) cur
        (character_count_indicator_length v (encoder_at mode))
    = dpv self k mode u /\
  u = phase (encoder_at mode) (List.length cur) /\
  Forall valid_segment segs /\
  encoder_is_valid_characters (encoder_at mode) cur = true.

(** A bound [B] on the table at row [k]: some position of the row, in a
    phase that a run can have, costs at most [B]. *)
Definition front (self : SegmentOptimizer) (k : nat) (B : Z) : Prop :=
  (k = 0%nat /\ 0 <= B) \/
  ((1 <= k)%nat /\
   exists mode r, (mode < 4)%nat /\
     dpv self k mode (phase (encoder_at mode) r) <= B).

(** What every instance that [compute] can be called on satisfies, fresh
    or used: the tables have their shape, no cost above row 0 exceeds
    [INF], and a reached position above row 0 records a parent one row
    below, itself reached when that row is not row 0. *)
Record linked (self : SegmentOptimizer) : Prop := {
  linked_dp : shaped (dp self);
  linked_parents : shaped (parents self);
  linked_bound : forall k mode u,
    (1 <= k <= 360)%nat -> (mode < 4)%nat -> (u < 3)%nat ->
    dpv self k mode u <= INF;
  linked_parent : forall k mode u,
    (k < 360)%nat -> (mode < 4)%nat -> (u < 3)%nat ->
    dpv self (S k) mode u <> INF ->
    exists mode0 u0,
      (mode0 < 4)%nat /\ (u0 < 3)%nat /\
      parent_of self (S k) mode u
        = (Z.of_nat k, Z.of_nat mode0, Z.of_nat u0) /\
      ((1 <= k)%nat -> dpv self k mode0 u0 <> INF)
}.

(** No two neighbours in a list of encoders are the same. *)
Fixpoint no_repeat (l : list Encoder) : Prop :=
  match l with
  | a :: r => match r with
              | b :: _ => a <> b /\ no_repeat r
              | [] => True
              end
  | [] => True
  end.

(** Segments merged as [_compute_segments] merges them: none is empty,
    and neighbours differ in their encoder. *)
Definition merged (segments : list Segment.t) : Prop :=
  Forall (fun s => Segment.data s <> []) segments /\
  no_repeat (map Segment.encoder_class segments).

(** The encoder of every character, segment after segment. *)
Definition modes_of (segments : list Segment.t) : list Encoder :=
  flat_map (fun s => repeat (Segment.encoder_class s)
                       (List.length (Segment.data s)))
           segments.

(** A path entry that points at a character of [data] and at an element
    of [encoders]. *)
Definition entry_ok (data : str) (p : cell) : Prop :=
  1 <= fst (fst p) <= len data /\ 0 <= snd (fst p) < 4.

(** An instance as [compute] finds it: [linked], and the cell
    [parents[360][3][2]], which is [parents[-1][-1][-1]], still holds
    what [__init__] put there. *)
Definition usable (self : SegmentOptimizer) : Prop :=
  linked self /\ parent_of self 360 3 2 = (-1, -1, -1).

(** What a call for an input of [k] characters leaves of the tables of
    [s] in [s']: the rows above [k], the cell [parents[360][3][2]], and,
    above row 0, every cost or a lower one. *)
Definition kept (k : nat) (s s' : SegmentOptimizer) : Prop :=
  (forall n mode u, (k < n)%nat ->
     dpv s' n mode u = dpv s n mode u /\
     parent_of s' n mode u = parent_of s n mode u) /\
  (forall n mode u, (1 <= n)%nat -> dpv s' n mode u <= dpv s n mode u) /\
  parent_of s' 360 3 2 = parent_of s 360 3 2.

(** The cost and the unfilled length after a run of [characters] that
    stays in [mode], from the unfilled length [unfilled_length]: the
    transitions of [_compute_new_state_without_mode_changing] in a row. *)
Definition run_cost (mode : nat) (characters : list str)
    (unfilled_length : nat) : Z * nat :=
  fold_left
    (fun acc character =>
       (fst acc
        + fst (_compute_new_state_without_mode_changing character mode
                 (snd acc)),
        snd (_compute_new_state_without_mode_changing character mode
               (snd acc))))
    characters (0, unfilled_length).

(** The costs of [a] are at most those of [b]: cell by cell above row 0,
    where [b] holds no cost above [INF]; in row 0 a cell of [b] holds
    what [a] holds there, or [INF]. *)
Definition below (a b : SegmentOptimizer) : Prop :=
  shaped (dp a) /\ shaped (dp b) /\
  (forall n mode u, (1 <= n <= 360)%nat -> (mode < 4)%nat -> (u < 3)%nat ->
     dpv a n mode u <= dpv b n mode u /\ dpv b n mode u <= INF) /\
  (forall mode u, (mode < 4)%nat -> (u < 3)%nat ->
     dpv a 0 mode u = dpv b 0 mode u \/ dpv b 0 mode u = INF).

(** What relaxing out of row [j] may change: row [j + 1] only, and costs
    only downwards. *)
Definition row_ext (j : nat) (s s' : SegmentOptimizer) : Prop :=
  (forall n mode u, n <> (j + 1)%nat ->
     dpv s' n mode u = dpv s n mode u /\
     parent_of s' n mode u = parent_of s n mode u) /\
  (forall mode u, dpv s' (j + 1) mode u <= dpv s (j + 1) mode u).

(** ** The tables *)

Lemma nth_update {A} (d : A) (f : A -> A) (l : list A) (i j : nat) :
  nth j (update i f l) d =
  if (i =? j)%nat
  then if (i <? List.length l)%nat then f (nth j l d) else nth j l d
  else nth j l d.
Proof.
  revert i j. induction l as [|x r IH]; intros i j; simpl.
  - destruct (i =? j)%nat; destruct j; reflexivity.
  - destruct i as [|i]; destruct j as [|j]; simpl; try reflexivity.
    rewrite IH. destruct (i =? j)%nat; [|reflexivity].
    change (S i <? S (List.length r))%nat with (i <? List.length r)%nat.
    reflexivity.
Qed.

Lemma length_update {A} (f : A -> A) (l : list A) (i : nat) :
  List.length (update i f l) = List.length l.
Proof.
  revert i. induction l as [|x r IH]; intros [|i]; simpl; auto.
Qed.

Lemma get3_set3_other {A} (d : A) (t : table A) n m u v n' m' u' :
  (n, m, u) <> (n', m', u') ->
  get3 d (set3 t n m u v) n' m' u' = get3 d t n' m' u'.
Proof.
  intros Hne. unfold get3, set3. rewrite nth_update.
  destruct (Nat.eqb_spec n n') as [->|]; [|reflexivity].
  destruct (n' <? List.length t)%nat; [|reflexivity].
  rewrite nth_update.
  destruct (Nat.eqb_spec m m') as [->|]; [|reflexivity].
  destruct (m' <? List.length (nth n' t []))%nat; [|reflexivity].
  rewrite nth_update.
  destruct (Nat.eqb_spec u u') as [->|]; [|reflexivity].
  congruence.
Qed.

Lemma get3_set3_same {A} (d : A) (t : table A) n m u v :
  shaped t -> (n < 361)%nat -> (m < 4)%nat -> (u < 3)%nat ->
  get3 d (set3 t n m u v) n m u = v.
Proof.
  intros [Hl Hs] Hn Hm Hu. destruct (Hs n Hn) as [Hp Hr].
  specialize (Hr m Hm).
  unfold get3, set3. rewrite nth_update, Nat.eqb_refl.
  replace (n <? List.length t)%nat with true
    by (symmetry; apply Nat.ltb_lt; lia).
  rewrite nth_update, Nat.eqb_refl.
  replace (m <? List.length (nth n t []))%nat with true
    by (symmetry; apply Nat.ltb_lt; lia).
  rewrite nth_update, Nat.eqb_refl.
  replace (u <? List.length (nth m (nth n t []) []))%nat with true
    by (symmetry; apply Nat.ltb_lt; lia).
  reflexivity.
Qed.

Lemma shaped_set3 {A} (t : table A) n m u v :
  shaped t -> shaped (set3 t n m u v).
Proof.
  intros [Hl Hs]. split.
  - unfold set3. rewrite length_update. exact Hl.
  - intros n' Hn'. destruct (Hs n' Hn') as [Hp Hr]. unfold set3.
    rewrite nth_update.
    destruct (Nat.eqb_spec n n') as [->|]; [|split; assumption].
    destruct (n' <? List.length t)%nat; [|split; assumption].
    split.
    + rewrite length_update. exact Hp.
    + intros m' Hm'. rewrite nth_update.
      destruct (Nat.eqb_spec m m') as [->|]; [|apply Hr; assumption].
      destruct (m' <? List.length (nth n' t []))%nat; [|apply Hr; assumption].
      rewrite length_update. apply Hr; assumption.
Qed.

Lemma nth_repeat_lt {A} (x d : A) (k n : nat) :
  (n < k)%nat -> nth n (repeat x k) d = x.
Proof.
  revert n. induction k as [|k IH]; intros [|n] H; simpl; try lia; auto.
  apply IH. lia.
Qed.

Lemma shaped_repeat {A} (x : A) : shaped (repeat (repeat (repeat x 3) 4) 361).
Proof.
  split; [apply repeat_length|]. intros n Hn.
  rewrite (nth_repeat_lt _ _ 361 n Hn). split; [apply repeat_length|].
  intros m Hm. rewrite (nth_repeat_lt _ _ 4 m Hm). apply repeat_length.
Qed.

Lemma get3_repeat {A} (x d : A) n m u :
  (n < 361)%nat -> (m < 4)%nat -> (u < 3)%nat ->
  get3 d (repeat (repeat (repeat x 3) 4) 361) n m u = x.
Proof.
  intros Hn Hm Hu. unfold get3.
  rewrite (nth_repeat_lt _ _ 361 n Hn), (nth_repeat_lt _ _ 4 m Hm).
  apply nth_repeat_lt. exact Hu.
Qed.

Lemma py_index_nat {A} (d : A) (l : list A) (i : nat) :
  (i < List.length l)%nat -> py_index l (Z.of_nat i) = Some (nth i l d).
Proof.
  intros H. unfold py_index.
  destruct (Z.ltb_spec (Z.of_nat i) 0); [lia|].
  rewrite Nat2Z.id. apply nth_error_nth'. exact H.
Qed.

Lemma py_get3_nat {A} (d : A) (t : table A) (n m u : nat) :
  shaped t -> (n < 361)%nat -> (m < 4)%nat -> (u < 3)%nat ->
  py_get3 t (Z.of_nat n, Z.of_nat m, Z.of_nat u) = Some (get3 d t n m u).
Proof.
  intros [Hl Hs] Hn Hm Hu. destruct (Hs n Hn) as [Hp Hr].
  specialize (Hr m Hm). unfold py_get3, get3.
  rewrite (py_index_nat [] t n) by lia.
  rewrite (py_index_nat [] _ m) by lia.
  apply py_index_nat. lia.
Qed.

(** ** One relaxation *)

Lemma transition_phase v data n m u nm :
  (snd (transition v data n m u nm) < 3)%nat.
Proof.
  unfold transition, _compute_new_state_without_mode_changing,
    _compute_new_state_with_mode_changing.
  destruct (nm =? m)%nat; destruct (encoder_at nm); cbn [fst snd]; lia.
Qed.

Lemma relax_cases v data n m u self nm :
  let tr := transition v data n m u nm in
  (relax v data n m u self nm = self /\
   (encoder_is_valid_characters (encoder_at nm) (char_at data n) = true ->
    dpv self (n + 1) nm (snd tr) <= dpv self n m u + fst tr))
  \/
  (encoder_is_valid_characters (encoder_at nm) (char_at data n) = true /\
   dpv self n m u + fst tr < dpv self (n + 1) nm (snd tr) /\
   dp (relax v data n m u self nm)
     = set3 (dp self) (n + 1) nm (snd tr) (dpv self n m u + fst tr) /\
   parents (relax v data n m u self nm)
     = set3 (parents self) (n + 1) nm (snd tr)
         (Z.of_nat n, Z.of_nat m, Z.of_nat u)).
Proof.
  intros tr. unfold relax. fold (transition v data n m u nm). fold tr.
  destruct (encoder_is_valid_characters (encoder_at nm) (char_at data n));
    simpl; [|left; split; [reflexivity|discriminate]].
  destruct tr as [cost new_length] eqn:E. simpl.
  fold (dpv self n m u). fold (dpv self (n + 1) nm new_length).
  destruct (Z.ltb_spec (dpv self n m u + cost) (dpv self (n + 1) nm new_length)).
  - right. simpl. auto.
  - left. split; [reflexivity|]. intros _. lia.
Qed.

Lemma row_ext_refl j s : row_ext j s s.
Proof. split; intros; [split; reflexivity | lia]. Qed.

Lemma row_ext_trans j a b c : row_ext j a b -> row_ext j b c -> row_ext j a c.
Proof.
  intros [H1 H2] [H3 H4]. split.
  - intros n m u Hn. destruct (H1 n m u Hn), (H3 n m u Hn). split; congruence.
  - intros m u. specialize (H2 m u). specialize (H4 m u). lia.
Qed.

Lemma edge_ok_ext v data j s s' m u nm :
  row_ext j s s' -> edge_ok v data s j m u nm -> edge_ok v data s' j m u nm.
Proof.
  intros [H1 H2] H Hv Hs.
  destruct (H1 j m u ltac:(lia)) as [E _]. rewrite E in *.
  specialize (H Hv Hs).
  specialize (H2 nm (snd (transition v data j m u nm))). lia.
Qed.

Lemma relax_row_inv v data j m u nm s :
  (j < 360)%nat -> (m < 4)%nat -> (u < 3)%nat -> (nm < 4)%nat ->
  row_inv v data j (j + 1) s -> dpv s j m u <> INF ->
  row_inv v data j (j + 1) (relax v data j m u s nm) /\
  row_ext j s (relax v data j m u s nm) /\
  edge_ok v data (relax v data j m u s nm) j m u nm.
Proof.
  intros Hj Hm Hu Hnm I Hsrc.
  pose proof (transition_phase v data j m u nm) as Hnl.
  destruct (relax_cases v data j m u s nm) as [[E Hle]|(Hv & Hlt & Ed & Ep)].
  - rewrite E. split; [exact I|]. split; [apply row_ext_refl|].
    intros Hv _. apply Hle. exact Hv.
  - set (s' := relax v data j m u s nm) in *.
    set (cost := fst (transition v data j m u nm)) in *.
    set (nl := snd (transition v data j m u nm)) in *.
    destruct I as [Sd Sp Ir Iri Ib If Ie Ip].
    assert (Hother : forall n a b, (n, a, b) <> ((j + 1)%nat, nm, nl) ->
              dpv s' n a b = dpv s n a b /\ parent_of s' n a b = parent_of s n a b).
    { intros n a b Hne. unfold dpv, parent_of. rewrite Ed, Ep.
      split; apply get3_set3_other; congruence. }
    assert (Hsame : dpv s' (j + 1) nm nl = dpv s j m u + cost /\
              parent_of s' (j + 1) nm nl
              = (Z.of_nat j, Z.of_nat m, Z.of_nat u)).
    { unfold dpv, parent_of. rewrite Ed, Ep.
      split; apply get3_set3_same; auto; lia. }
    assert (Hrow : forall n a b, n <> (j + 1)%nat ->
              dpv s' n a b = dpv s n a b /\ parent_of s' n a b = parent_of s n a b).
    { intros n a b Hne. apply Hother. congruence. }
    assert (Hmono : forall a b, dpv s' (j + 1) a b <= dpv s (j + 1) a b).
    { intros a b.
      destruct (Nat.eq_dec a nm) as [->|]; [destruct (Nat.eq_dec b nl) as [->|]|].
      - destruct Hsame as [-> _]. lia.
      - destruct (Hother (j + 1)%nat nm b ltac:(congruence)) as [-> _]. lia.
      - destruct (Hother (j + 1)%nat a b ltac:(congruence)) as [-> _]. lia. }
    split; [|split].
    + constructor.
      * rewrite Ed. apply shaped_set3. exact Sd.
      * rewrite Ep. apply shaped_set3. exact Sp.
      * intros a Ha. destruct (Hrow 0%nat a 0%nat ltac:(lia)) as [-> _]. auto.
      * intros a b Ha Hb. destruct (Hrow 0%nat a b ltac:(lia)) as [-> _]. auto.
      * intros n a b Hn Ha Hb. destruct (Nat.eq_dec n (j + 1)) as [->|Hne].
        -- specialize (Hmono a b).
           specialize (Ib (j + 1)%nat a b ltac:(lia) Ha Hb). lia.
        -- destruct (Hrow n a b Hne) as [-> _]. auto.
      * intros n a b Hn Ha Hb. destruct (Hrow n a b ltac:(lia)) as [-> _]. auto.
      * intros n a b c Hn Ha Hb Hc Hval.
        destruct (Hrow n a b ltac:(lia)) as [-> _].
        destruct (Hrow (n + 1)%nat c (snd (transition v data n a b c))
                    ltac:(lia)) as [-> _].
        apply Ie; auto.
      * intros n a b Hn Ha Hb Hreach.
        destruct (Nat.eq_dec n j) as [->|Hne].
        -- destruct (Nat.eq_dec a nm) as [->|Ha'];
             [destruct (Nat.eq_dec b nl) as [->|Hb']|].
           ++ exists m, u. destruct Hsame as [E1 E2].
              destruct (Hrow j m u ltac:(lia)) as [E3 _].
              rewrite E1, E2, E3. repeat split; auto.
              rewrite (surjective_pairing (transition v data j m u nm)).
              fold cost. fold nl. f_equal. lia.
           ++ destruct (Hother (j + 1)%nat nm b ltac:(congruence)) as [E1 E2].
              rewrite E1 in Hreach.
              destruct (Ip j nm b Hn Ha Hb Hreach)
                as (m0 & u0 & ? & ? & ? & ? & ? & ?).
              exists m0, u0. destruct (Hrow j m0 u0 ltac:(lia)) as [E3 _].
              rewrite E1, E2, E3. repeat split; auto.
           ++ destruct (Hother (j + 1)%nat a b ltac:(congruence)) as [E1 E2].
              rewrite E1 in Hreach.
              destruct (Ip j a b Hn Ha Hb Hreach)
                as (m0 & u0 & ? & ? & ? & ? & ? & ?).
              exists m0, u0. destruct (Hrow j m0 u0 ltac:(lia)) as [E3 _].
              rewrite E1, E2, E3. repeat split; auto.
        -- destruct (Hrow (n + 1)%nat a b ltac:(lia)) as [E1 E2].
           rewrite E1 in Hreach.
           destruct (Ip n a b Hn Ha Hb Hreach)
             as (m0 & u0 & ? & ? & ? & ? & ? & ?).
           exists m0, u0. destruct (Hrow n m0 u0 ltac:(lia)) as [E3 _].
           rewrite E1, E2, E3. repeat split; auto.
    + split; [exact Hrow | exact Hmono].
    + intros _ _.
      change (dpv s' (j + 1) nm nl <= dpv s' j m u + cost).
      destruct Hsame as [-> _].
      destruct (Hrow j m u ltac:(lia)) as [-> _]. lia.
Qed.

(** ** The loops of [_compute_costs] *)

Lemma fold_left_ext {X} (f : SegmentOptimizer -> X -> SegmentOptimizer)
    (I : SegmentOptimizer -> Prop)
    (E : SegmentOptimizer -> SegmentOptimizer -> Prop)
    (Done : X -> SegmentOptimizer -> Prop) (l : list X) :
  (forall s, E s s) ->
  (forall a b c, E a b -> E b c -> E a c) ->
  (forall x s s', E s s' -> Done x s -> Done x s') ->
  (forall s x, In x l -> I s -> I (f s x) /\ E s (f s x) /\ Done x (f s x)) ->
  forall s, I s ->
    I (fold_left f l s) /\ E s (fold_left f l s) /\
    forall x, In x l -> Done x (fold_left f l s).
Proof.
  intros Hrefl Htrans Hmono. induction l as [|y l IH]; intros Hstep s Hs.
  - simpl. repeat split; auto. intros x [].
  - simpl. destruct (Hstep s y (or_introl eq_refl) Hs) as (I1 & E1 & D1).
    destruct (IH (fun s x H => Hstep s x (or_intror H)) (f s y) I1)
      as (I2 & E2 & D2).
    repeat split; auto.
    + eapply Htrans; eauto.
    + intros x [<-|Hx]; [eapply Hmono; eauto | auto].
Qed.

Lemma relax_state_inv v data j m u s :
  (j < 360)%nat -> (m < 4)%nat -> (u < 3)%nat ->
  row_inv v data j (j + 1) s ->
  row_inv v data j (j + 1) (relax_state v data j m s u) /\
  row_ext j s (relax_state v data j m s u) /\
  forall nm, (nm < 4)%nat -> edge_ok v data (relax_state v data j m s u) j m u nm.
Proof.
  intros Hj Hm Hu I. unfold relax_state. fold (dpv s j m u).
  destruct (Z.eqb_spec (dpv s j m u) INF) as [Heq|Hne].
  - split; [exact I|]. split; [apply row_ext_refl|].
    intros nm _ _ Hs. contradiction.
  - destruct (fold_left_ext (relax v data j m u)
                (fun s => row_inv v data j (j + 1) s /\ dpv s j m u <> INF)
                (row_ext j) (fun nm s => edge_ok v data s j m u nm) (seq 0 4))
      with (s := s) as ([I' _] & E' & D').
    + apply row_ext_refl.
    + apply row_ext_trans.
    + intros; eapply edge_ok_ext; eauto.
    + intros s0 nm Hin [I0 H0]. apply in_seq in Hin.
      destruct (relax_row_inv v data j m u nm s0) as (I1 & E1 & D1);
        auto; try lia.
      split; [split; [exact I1|] | split; [exact E1 | exact D1]].
      destruct E1 as [E1 _]. destruct (E1 j m u ltac:(lia)) as [-> _]. exact H0.
    + split; assumption.
    + split; [exact I'|]. split; [exact E'|].
      intros nm Hnm. apply D'. apply in_seq. lia.
Qed.

Lemma relax_row_full v data j s :
  (j < 360)%nat ->
  row_inv v data j j s -> row_inv v data (j + 1) (j + 1) (relax_row v data s j).
Proof.
  intros Hj I.
  assert (I0 : row_inv v data j (j + 1) s).
  { destruct I as [Sd Sp Ir Iri Ib If Ie Ip]. constructor; auto.
    - intros n m u Hn. apply If. lia.
    - intros n m u Hn Hm Hu. destruct (Nat.eq_dec n j) as [->|].
      + intros Hreach. exfalso. apply Hreach. apply If; auto. lia.
      + apply Ip; auto. lia. }
  unfold relax_row.
  destruct (fold_left_ext
              (fun s m => fold_left (relax_state v data j m) (seq 0 3) s)
              (row_inv v data j (j + 1)) (row_ext j)
              (fun m s => forall u nm, (u < 3)%nat -> (nm < 4)%nat ->
                                       edge_ok v data s j m u nm)
              (seq 0 4)) with (s := s) as (I' & E' & D').
  - apply row_ext_refl.
  - apply row_ext_trans.
  - intros m a b Hab H u nm Hu Hnm. eapply edge_ok_ext; eauto.
  - intros s0 m Hin Is0. apply in_seq in Hin.
    destruct (fold_left_ext (relax_state v data j m)
                (row_inv v data j (j + 1)) (row_ext j)
                (fun u s => forall nm, (nm < 4)%nat -> edge_ok v data s j m u nm)
                (seq 0 3)) with (s := s0) as (I1 & E1 & D1).
    + apply row_ext_refl.
    + apply row_ext_trans.
    + intros u a b Hab H nm Hnm. eapply edge_ok_ext; eauto.
    + intros s1 u Hu Is1. apply in_seq in Hu.
      apply relax_state_inv; auto; lia.
    + exact Is0.
    + split; [exact I1|]. split; [exact E1|].
      intros u nm Hu Hnm. apply D1; auto. apply in_seq. lia.
  - exact I0.
  - destruct I' as [Sd Sp Ir Iri Ib If Ie Ip]. constructor; auto.
    intros n m u nm Hn Hm Hu Hnm. destruct (Nat.eq_dec n j) as [->|].
    + apply D'; auto. apply in_seq. lia.
    + apply Ie; auto. lia.
Qed.

Lemma base_case_inv v data :
  row_inv v data 0 0 (fold_left (base_case v) (seq 0 (List.length encoders))
                        __init__).
Proof.
  unfold __init__. change (Z.to_nat (MAX_CHARACTER + 1)) with 361%nat.
  cbn [List.length encoders seq fold_left]. unfold base_case. cbn [dp parents].
  assert (Hfar : forall (A : Type) (d x a b c e : A) n m u,
            (n < 361)%nat -> (m < 4)%nat -> (u < 3)%nat ->
            (n <> 0 \/ u <> 0)%nat ->
            get3 d (set3 (set3 (set3 (set3
                     (repeat (repeat (repeat x 3) 4) 361)
                     0 0 0 a) 0 1 0 b) 0 2 0 c) 0 3 0 e) n m u = x).
  { intros A d x a b c e n m u Hn Hm Hu Hnu.
    rewrite !get3_set3_other by (intros [=]; lia).
    apply get3_repeat; auto. }
  constructor.
  - repeat apply shaped_set3. apply shaped_repeat.
  - repeat apply shaped_set3. apply shaped_repeat.
  - intros m Hm. unfold dpv. cbn [dp].
    assert (S4 : forall a b c, shaped (set3 (set3 (set3
               (repeat (repeat (repeat INF 3) 4) 361) 0 0 0 a) 0 1 0 b) 0 2 0 c)).
    { intros. repeat apply shaped_set3. apply shaped_repeat. }
    assert (S3 : forall a b, shaped (set3 (set3
               (repeat (repeat (repeat INF 3) 4) 361) 0 0 0 a) 0 1 0 b)).
    { intros. repeat apply shaped_set3. apply shaped_repeat. }
    assert (S2 : forall a, shaped (set3
               (repeat (repeat (repeat INF 3) 4) 361) 0 0 0 a)).
    { intros. repeat apply shaped_set3. apply shaped_repeat. }
    destruct m as [|[|[|[|m]]]]; try lia.
    + rewrite !get3_set3_other by discriminate.
      apply get3_set3_same; auto using shaped_repeat; lia.
    + rewrite !get3_set3_other by discriminate.
      apply get3_set3_same; auto; lia.
    + rewrite !get3_set3_other by discriminate.
      apply get3_set3_same; auto; lia.
    + apply get3_set3_same; auto; lia.
  - intros m u Hm Hu. apply Hfar; lia.
  - intros n m u Hn Hm Hu. unfold dpv. cbn [dp].
    rewrite Hfar; try lia.
  - intros n m u Hn Hm Hu. apply Hfar; lia.
  - intros; lia.
  - intros; lia.
Qed.

Lemma compute_costs_rows v data j :
  (j <= 360)%nat ->
  row_inv v data j j
    (fold_left (relax_row v data) (seq 0 j)
       (fold_left (base_case v) (seq 0 (List.length encoders)) __init__)).
Proof.
  induction j as [|j IH]; intros Hj.
  - apply base_case_inv.
  - rewrite seq_S, fold_left_app. simpl fold_left at 1.
    replace (S j) with (j + 1)%nat by lia.
    apply relax_row_full; [lia|]. apply IH. lia.
Qed.

Lemma compute_costs_inv v data :
  len data <= MAX_CHARACTER ->
  row_inv v data (List.length data) (List.length data)
    (_compute_costs v data __init__).
Proof.
  intros H. apply compute_costs_rows. unfold len, MAX_CHARACTER in H. lia.
Qed.

(** ** [_find_best] *)

Lemma find_best_fold self data :
  _find_best self data =
  let '(best, best_index) :=
    fold_left (best_step self data) cells (INF, (-1, -1, -1)) in
  {| Best.cost := best; Best.index := best_index |}.
Proof. reflexivity. Qed.

Lemma cells_sorted : StronglySorted lex_lt cells.
Proof.
  unfold cells. cbn [seq flat_map map app].
  repeat (apply SSorted_cons;
          [|repeat (apply Forall_cons; [unfold lex_lt; simpl; lia|]);
            apply Forall_nil]).
  apply SSorted_nil.
Qed.

Lemma in_cells m u : In (m, u) cells <-> (m < 4)%nat /\ (u < 3)%nat.
Proof.
  unfold cells. rewrite in_flat_map. split.
  - intros (x & Hx & Hin). apply in_map_iff in Hin as (y & [= <- <-] & Hy).
    apply in_seq in Hx, Hy. lia.
  - intros [Hm Hu]. exists m. split; [apply in_seq; lia|].
    apply in_map_iff. exists u. split; [reflexivity | apply in_seq; lia].
Qed.

Lemma best_fold_spec self data l :
  StronglySorted lex_lt l -> forall b0 i0,
  let r := fold_left (best_step self data) l (b0, i0) in
  fst r <= b0 /\
  (forall c, In c l -> fst r <= dpv self (List.length data) (fst c) (snd c)) /\
  ((r = (b0, i0)) \/
   exists c, In c l /\
     fst r = dpv self (List.length data) (fst c) (snd c) /\
     fst r < b0 /\
     snd r = (len data, Z.of_nat (fst c), Z.of_nat (snd c)) /\
     forall c', In c' l ->
       dpv self (List.length data) (fst c') (snd c') = fst r ->
       c = c' \/ lex_lt c c').
Proof.
  induction 1 as [|a l Hs IH Ha]; intros b0 i0; cbv zeta.
  - cbn [fold_left fst snd]. split; [lia|].
    split; [intros c []|left; reflexivity].
  - cbn [fold_left]. destruct a as [am au].
    replace (best_step self data (b0, i0) (am, au))
      with (if dpv self (List.length data) am au <? b0
            then (dpv self (List.length data) am au,
                  (len data, Z.of_nat am, Z.of_nat au))
            else (b0, i0)) by reflexivity.
    destruct (Z.ltb_spec (dpv self (List.length data) am au) b0)
      as [Hlt|Hge].
    + specialize (IH (dpv self (List.length data) am au)
                     (len data, Z.of_nat am, Z.of_nat au)).
      cbv zeta in IH.
      set (r := fold_left (best_step self data) l _) in *. clearbody r.
      destruct IH as (H1 & H2 & H3).
      split; [lia|]. split.
      * intros c [<-|Hc]; auto.
      * right. destruct H3 as [E|(c & Hc & E1 & E2 & E3 & E4)].
        -- exists (am, au). rewrite E. cbn [fst snd].
           split; [left; reflexivity|]. repeat split; auto.
           intros c' [<-|Hc'] _; [left; reflexivity|right].
           rewrite Forall_forall in Ha. auto.
        -- exists c. split; [right; exact Hc|].
           split; [exact E1|]. split; [lia|]. split; [exact E3|].
           intros c' [<-|Hc'] E'; [cbn [fst snd] in E'; lia | auto].
    + specialize (IH b0 i0). cbv zeta in IH.
      set (r := fold_left (best_step self data) l _) in *. clearbody r.
      destruct IH as (H1 & H2 & H3).
      split; [lia|]. split.
      * intros c [<-|Hc]; [cbn [fst snd]; lia | auto].
      * destruct H3 as [E|(c & Hc & E1 & E2 & E3 & E4)]; [left; exact E|].
        right. exists c. split; [right; exact Hc|].
        split; [exact E1|]. split; [lia|]. split; [exact E3|].
        intros c' [<-|Hc'] E'; [cbn [fst snd] in E'; lia | auto].
Qed.

(** ** The cost functions *)

Lemma encoder_at_mode_of e : encoder_at (mode_of e) = e.
Proof. destruct e; reflexivity. Qed.

Lemma mode_of_lt e : (mode_of e < 4)%nat.
Proof. destruct e; simpl; lia. Qed.

Lemma mode_of_encoder_at m : (m < 4)%nat -> mode_of (encoder_at m) = m.
Proof. intros H. destruct m as [|[|[|[|m]]]]; try reflexivity. lia. Qed.

Lemma phase_lt e r : (phase e r < 3)%nat.
Proof. destruct e; unfold phase; lia. Qed.

Lemma len_app {A} (a b : list A) : len (a ++ b) = len a + len b.
Proof. unfold len. rewrite length_app. lia. Qed.

Lemma len_nonneg {A} (a : list A) : 0 <= len a.
Proof. unfold len. lia. Qed.

Lemma utf8_app a b : utf8 (a ++ b) = utf8 a ++ utf8 b.
Proof. unfold utf8. apply flat_map_app. Qed.

Lemma widths_ok_at v e :
  widths_ok v ->
  0 <= character_count_indicator_length v e /\
  3 + character_count_indicator_length v e < INF.
Proof.
  unfold widths_ok, encoders. intros H.
  inversion H as [|? ? H0 H']; subst. inversion H' as [|? ? H1 H'']; subst.
  inversion H'' as [|? ? H2 H''']; subst. inversion H''' as [|? ? H3 ?]; subst.
  destruct e; assumption.
Qed.

Lemma encoder_length_nil e w : encoder_length e [] w = 3 + w.
Proof.
  destruct e; unfold encoder_length, NumericEncoder.length,
    AlphanumericEncoder.length, ByteEncoder.length, KanjiEncoder.length;
    simpl; lia.
Qed.

Lemma encoder_length_snoc e s c w :
  encoder_length e (s ++ [c]) w
  = encoder_length e s w
    + fst (_compute_new_state_without_mode_changing [c] (mode_of e)
             (phase e (List.length s))).
Proof.
  unfold _compute_new_state_without_mode_changing.
  rewrite encoder_at_mode_of.
  destruct e; unfold encoder_length, NumericEncoder.length,
    AlphanumericEncoder.length, ByteEncoder.length, KanjiEncoder.length, phase;
    cbn [fst]; rewrite ?utf8_app, ?len_app; unfold len; cbn [List.length].
  - destruct (Nat.eqb_spec (List.length s mod 3) 0);
      repeat match goal with
             | |- context [if ?a =? ?b then _ else _] =>
                 destruct (Z.eqb_spec a b)
             end; lia.
  - destruct (Nat.eqb_spec (List.length s mod 2) 0); lia.
  - lia.
  - lia.
Qed.

Lemma without_phase e (s : str) c :
  snd (_compute_new_state_without_mode_changing c (mode_of e)
         (phase e (List.length s)))
  = phase e (List.length s + 1).
Proof.
  unfold _compute_new_state_without_mode_changing.
  rewrite encoder_at_mode_of. destruct e; cbn [snd phase]; try reflexivity.
  - rewrite Nat.Div0.add_mod_idemp_l. reflexivity.
  - rewrite Nat.Div0.add_mod_idemp_l. reflexivity.
Qed.

Lemma with_cost v e c u :
  _compute_new_state_with_mode_changing v c (mode_of e) u
  = (encoder_length e c (character_count_indicator_length v e), phase e 1).
Proof.
  unfold _compute_new_state_with_mode_changing.
  rewrite encoder_at_mode_of. destruct e; reflexivity.
Qed.

Lemma encoder_length_lower e s w : 3 + w <= encoder_length e s w.
Proof.
  pose proof (len_nonneg s). pose proof (len_nonneg (utf8 s)).
  destruct e; unfold encoder_length, NumericEncoder.length,
    AlphanumericEncoder.length, ByteEncoder.length, KanjiEncoder.length;
    cbn [String.length ByteEncoder.mode_indicator];
    repeat match goal with
           | |- context [if ?a =? ?b then _ else _] => destruct (Z.eqb_spec a b)
           end; lia.
Qed.

Lemma encoder_length_app e t s w :
  0 <= 3 + w ->
  encoder_length e (t ++ s) w <= encoder_length e t w + encoder_length e s w.
Proof.
  intros Hw. pose proof (len_nonneg s). pose proof (len_nonneg t).
  destruct e; unfold encoder_length, NumericEncoder.length,
    AlphanumericEncoder.length, ByteEncoder.length, KanjiEncoder.length;
    cbn [String.length ByteEncoder.mode_indicator];
    rewrite ?utf8_app, ?len_app;
    repeat match goal with
           | |- context [if ?a =? ?b then _ else _] => destruct (Z.eqb_spec a b)
           end; lia.
Qed.

Lemma without_cost_nonneg c m u :
  0 <= fst (_compute_new_state_without_mode_changing c m u).
Proof.
  unfold _compute_new_state_without_mode_changing.
  pose proof (len_nonneg (utf8 c)).
  destruct (encoder_at m); cbn [fst]; try lia;
    destruct (u =? 0)%nat; lia.
Qed.

(** ** Lists, sums and validity *)

Lemma sum_shift l a : fold_left Z.add l a = a + sum l.
Proof.
  unfold sum. revert a. induction l as [|x l IH]; intros a; simpl; [lia|].
  rewrite IH, (IH x). lia.
Qed.

Lemma sum_cons x l : sum (x :: l) = x + sum l.
Proof. unfold sum at 1. simpl. rewrite sum_shift. reflexivity. Qed.

Lemma sum_app a b : sum (a ++ b) = sum a + sum b.
Proof.
  induction a as [|x a IH]; [reflexivity|].
  simpl. rewrite !sum_cons, IH. lia.
Qed.

Lemma total_length_cons v s P :
  total_length v (s :: P)
  = encoder_length (Segment.encoder_class s) (Segment.data s)
      (character_count_indicator_length v (Segment.encoder_class s))
    + total_length v P.
Proof. unfold total_length. simpl. apply sum_cons. Qed.

Lemma total_length_snoc v P s :
  total_length v (P ++ [s])
  = total_length v P
    + encoder_length (Segment.encoder_class s) (Segment.data s)
        (character_count_indicator_length v (Segment.encoder_class s)).
Proof.
  unfold total_length. rewrite map_app, sum_app. simpl.
  rewrite sum_cons. unfold sum. simpl. lia.
Qed.

Lemma valid_app e a b :
  encoder_is_valid_characters e (a ++ b)
  = encoder_is_valid_characters e a && encoder_is_valid_characters e b.
Proof.
  destruct e; unfold encoder_is_valid_characters,
    NumericEncoder.is_valid_characters,
    AlphanumericEncoder.is_valid_characters,
    KanjiEncoder.is_valid_characters; try apply forallb_app. reflexivity.
Qed.

Lemma nth_error_split (data : str) n c :
  nth_error data n = Some c ->
  char_at data n = [c] /\
  py_index data (Z.of_nat (S n) - 1) = Some c /\
  firstn (S n) data = firstn n data ++ [c] /\
  (n < List.length data)%nat.
Proof.
  intros H. assert (Hn : (n < List.length data)%nat).
  { apply nth_error_Some. congruence. }
  split; [unfold char_at; rewrite H; reflexivity|].
  split.
  { unfold py_index. destruct (Z.ltb_spec (Z.of_nat (S n) - 1) 0); [lia|].
    replace (Z.to_nat (Z.of_nat (S n) - 1)) with n by lia. exact H. }
  split; [|exact Hn].
  clear Hn. revert n H. induction data as [|x data IH]; intros [|n] H;
    simpl in *; try discriminate.
  - congruence.
  - f_equal. apply IH. exact H.
Qed.

Lemma nth_error_middle (pre post : str) c :
  nth_error (pre ++ c :: post) (List.length pre) = Some c.
Proof.
  rewrite nth_error_app2 by lia. rewrite Nat.sub_diag. reflexivity.
Qed.

(** ** Back along the parents *)

Lemma reconstruct_path_to self k m u p :
  shaped (parents self) -> path_to self k m u p ->
  (k <= 360)%nat -> (m < 4)%nat -> (u < 3)%nat ->
  forall fuel acc, (k <= fuel)%nat ->
    reconstruct_loop fuel self acc (Z.of_nat k, Z.of_nat m, Z.of_nat u)
    = Some (Ok (p ++ rev acc)).
Proof.
  intros Sp Hp. induction Hp as [m u|n m u m0 u0 p Hm0 Hu0 Hpar Hp IH];
    intros Hk Hm Hu fuel acc Hf.
  - destruct fuel; reflexivity.
  - destruct fuel as [|fuel]; [lia|].
    cbn [reconstruct_loop fst].
    destruct (Z.eqb_spec (Z.of_nat (S n)) 0) as [E|_]; [lia|].
    cbn [negb].
    rewrite (py_get3_nat ((0, 0, 0) : cell) (parents self) (S n) m u Sp)
      by (auto; lia).
    change (get3 ((0, 0, 0) : cell) (parents self) (S n) m u)
      with (parent_of self (S n) m u).
    rewrite Hpar. rewrite IH by (auto; lia).
    rewrite rev_app_distr. simpl. rewrite <- app_assoc. reflexivity.
Qed.

Lemma without_at e (s : str) c w :
  _compute_new_state_without_mode_changing [c] (mode_of e)
    (phase e (List.length s))
  = (encoder_length e (s ++ [c]) w - encoder_length e s w,
     phase e (List.length s + 1)).
Proof.
  rewrite (surjective_pairing (_compute_new_state_without_mode_changing _ _ _)).
  rewrite without_phase, (encoder_length_snoc e s c w). f_equal. lia.
Qed.

Lemma phase_0 e : phase e 0 = 0%nat.
Proof. destruct e; reflexivity. Qed.

Lemma root_header v data fl ln self m :
  row_inv v data fl ln self -> (m < 4)%nat ->
  dpv self 0 m 0 = 3 + character_count_indicator_length v (encoder_at m).
Proof.
  intros I Hm. rewrite (inv_root _ _ _ _ _ I m Hm). apply encoder_length_nil.
Qed.

Lemma py_index_encoders m :
  (m < 4)%nat -> py_index encoders (Z.of_nat m) = Some (encoder_at m).
Proof. intros H. apply py_index_nat. simpl. lia. Qed.

Lemma path_exists v data self :
  widths_ok v -> (List.length data <= 360)%nat ->
  row_inv v data (List.length data) (List.length data) self ->
  forall n m u,
    (n < List.length data)%nat -> (m < 4)%nat -> (u < 3)%nat ->
    dpv self (S n) m u <> INF ->
    exists p segs cur,
      path_to self (S n) m u p /\
      fold_left (segments_step data) p (Ok ([], [], -1))
        = Ok (segs, cur, Z.of_nat m) /\
      seg_state v data self (S n) m u segs cur.
Proof.
  intros Hw HL I. induction n as [|n IH]; intros m u Hn Hm Hu Hreach.
  - pose proof (inv_parents _ _ _ _ _ I 0%nat m u ltac:(lia) Hm Hu) as HP.
    destruct (HP Hreach) as (m0 & u0 & Hm0 & Hu0 & Hpar & Hsrc & Hval & Htr).
    change (0 + 1)%nat with 1%nat in *.
    assert (u0 = 0%nat) as ->.
    { destruct u0 as [|u0]; [reflexivity|]. exfalso. apply Hsrc.
      apply (inv_root_inf _ _ _ _ _ I); lia. }
    destruct (nth_error data 0) as [c|] eqn:Ec;
      [|apply nth_error_None in Ec; lia].
    destruct (nth_error_split data 0 c Ec) as (Hc & Hpy & Hfirst & _).
    rewrite Hc in Hval.
    set (e := encoder_at m) in *.
    assert (Hme : mode_of e = m) by (apply mode_of_encoder_at; exact Hm).
    pose proof (without_at e [] c (character_count_indicator_length v e))
      as Hwo.
    rewrite Hme, phase_0 in Hwo. cbn [List.length app Nat.add] in Hwo.
    rewrite encoder_length_nil in Hwo.
    pose proof (root_header v data _ _ self m I Hm) as Hroot. fold e in Hroot.
    assert (Hcost : dpv self 1 m u
                    = encoder_length e [c] (character_count_indicator_length v e)
                    /\ u = phase e 1).
    { unfold transition in Htr. rewrite Hc in Htr.
      destruct (Nat.eqb_spec m m0) as [<-|Hne].
      - rewrite Hwo in Htr. pair_eq Htr E1 E2. split; [lia|congruence].
      - pose proof (with_cost v e [c] 0%nat) as Hwc. rewrite Hme in Hwc.
        rewrite Hwc in Htr. pair_eq Htr E1 E2.
        pose proof (inv_edges _ _ _ _ _ I 0%nat m 0%nat m ltac:(lia) Hm
                      ltac:(lia) Hm) as Hedge.
        unfold edge_ok, transition in Hedge.
        rewrite Nat.eqb_refl, Hc, Hwo in Hedge. cbn [fst snd] in Hedge.
        change (0 + 1)%nat with 1%nat in Hedge. fold e in Hedge.
        specialize (Hedge Hval).
        destruct (widths_ok_at v e Hw) as [_ Hinf].
        specialize (Hedge ltac:(lia)).
        pose proof (root_header v data _ _ self m0 I Hm0) as Hroot0.
        destruct (widths_ok_at v (encoder_at m0) Hw) as [Hpos _].
        rewrite E2 in Hedge. lia. }
    destruct Hcost as [Hcost Hphase].
    exists ([] ++ [(Z.of_nat 1, Z.of_nat m, Z.of_nat u)]), [], [c].
    split; [|split].
    + eapply path_step; eauto. constructor.
    + cbn [app fold_left segments_step fst snd].
      change (-1 =? -1) with true. cbv iota. rewrite Hpy. reflexivity.
    + unfold seg_state. fold e.
      split; [rewrite Hfirst; reflexivity|].
      split; [unfold total_length, sum; simpl; lia|].
      split; [exact Hphase|]. split; [constructor | exact Hval].
  - pose proof (inv_parents _ _ _ _ _ I (S n) m u ltac:(lia) Hm Hu) as HP.
    unfold has_parent in HP. rewrite Nat.add_1_r in HP.
    destruct (HP Hreach) as (m0 & u0 & Hm0 & Hu0 & Hpar & Hsrc & Hval & Htr).
    destruct (IH m0 u0 ltac:(lia) Hm0 Hu0 Hsrc)
      as (p' & segs' & cur' & Hp' & Hfold' & Hst').
    destruct Hst' as (Hcat & Hsum & Hph & Hvs & Hvc).
    destruct (nth_error data (S n)) as [c|] eqn:Ec;
      [|apply nth_error_None in Ec; lia].
    destruct (nth_error_split data (S n) c Ec) as (Hc & Hpy & Hfirst & _).
    rewrite Hc in Hval.
    set (e := encoder_at m) in *.
    assert (Hme : mode_of e = m) by (apply mode_of_encoder_at; exact Hm).
    unfold transition in Htr. rewrite Hc in Htr.
    exists (p' ++ [(Z.of_nat (S (S n)), Z.of_nat m, Z.of_nat u)]).
    destruct (Nat.eqb_spec m m0) as [<-|Hne].
    + exists segs', (cur' ++ [c]). split; [|split].
      * eapply path_step; eauto.
      * rewrite fold_left_app, Hfold'. cbn [fold_left segments_step fst snd].
        destruct (Z.eqb_spec (Z.of_nat m) (-1)) as [?|_]; [lia|].
        rewrite Z.eqb_refl, Hpy. reflexivity.
      * fold e in Hsum, Hph, Hvc.
        pose proof (without_at e cur' c (character_count_indicator_length v e))
          as Hwo.
        rewrite Hme, <- Hph in Hwo. rewrite Hwo in Htr.
        pair_eq Htr E1 E2.
        unfold seg_state. fold e.
        split; [rewrite app_assoc, Hcat, Hfirst; reflexivity|].
        split; [lia|].
        split; [rewrite length_app; simpl; congruence|].
        split; [exact Hvs|]. rewrite valid_app, Hvc, Hval. reflexivity.
    + exists (segs' ++ [Segment.mk cur' (encoder_at m0)]), [c].
      split; [|split].
      * eapply path_step; eauto.
      * rewrite fold_left_app, Hfold'. cbn [fold_left segments_step fst snd].
        destruct (Z.eqb_spec (Z.of_nat m0) (-1)) as [?|_]; [lia|].
        destruct (Z.eqb_spec (Z.of_nat m0) (Z.of_nat m)) as [?|_]; [lia|].
        rewrite py_index_encoders, Hpy by exact Hm0. reflexivity.
      * pose proof (with_cost v e [c] u0) as Hwc. rewrite Hme in Hwc.
        rewrite Hwc in Htr. pair_eq Htr E1 E2.
        unfold seg_state. fold e.
        split.
        { rewrite map_app, concat_app. cbn [map List.concat Segment.data].
          rewrite app_nil_r, Hcat, Hfirst. reflexivity. }
        split.
        { rewrite total_length_snoc. cbn [Segment.data Segment.encoder_class].
          lia. }
        split; [cbn [List.length]; congruence|].
        split; [|exact Hval].
        apply Forall_app. split; [exact Hvs|].
        constructor; [exact Hvc | constructor].
Qed.

(** ** Every partition costs at least what the table holds *)

Lemma transition_cost_nonneg v data n m u nm :
  widths_ok v -> 0 <= fst (transition v data n m u nm).
Proof.
  intros Hw. unfold transition. destruct (nm =? m)%nat.
  - apply without_cost_nonneg.
  - unfold _compute_new_state_with_mode_changing. cbn [fst].
    destruct (widths_ok_at v (encoder_at nm) Hw) as [Hpos _].
    pose proof (encoder_length_lower (encoder_at nm) (char_at data n)
                  (character_count_indicator_length v (encoder_at nm))).
    lia.
Qed.

Lemma edge_all v data self n m u nm :
  widths_ok v -> (List.length data <= 360)%nat ->
  row_inv v data (List.length data) (List.length data) self ->
  (n < List.length data)%nat -> (m < 4)%nat -> (u < 3)%nat -> (nm < 4)%nat ->
  encoder_is_valid_characters (encoder_at nm) (char_at data n) = true ->
  dpv self (n + 1) nm (snd (transition v data n m u nm))
  <= dpv self n m u + fst (transition v data n m u nm).
Proof.
  intros Hw HL I Hn Hm Hu Hnm Hval.
  destruct (Z.eq_dec (dpv self n m u) INF) as [E|Hne].
  - pose proof (transition_cost_nonneg v data n m u nm Hw).
    pose proof (inv_bound _ _ _ _ _ I (n + 1)%nat nm
                  (snd (transition v data n m u nm)) ltac:(lia) Hnm
                  (transition_phase v data n m u nm)).
    lia.
  - apply (inv_edges _ _ _ _ _ I n m u nm); auto.
Qed.

Lemma run_lb v data self e :
  widths_ok v -> (List.length data <= 360)%nat ->
  row_inv v data (List.length data) (List.length data) self ->
  forall (s pre post t : str),
    data = pre ++ s ++ post ->
    encoder_is_valid_characters e s = true ->
    dpv self (List.length pre + List.length s) (mode_of e)
      (phase e (List.length t + List.length s))
    <= dpv self (List.length pre) (mode_of e) (phase e (List.length t))
       + (encoder_length e (t ++ s) (character_count_indicator_length v e)
          - encoder_length e t (character_count_indicator_length v e)).
Proof.
  intros Hw HL I. induction s as [|c s IH]; intros pre post t Hd Hval.
  - rewrite app_nil_r. cbn [List.length]. rewrite !Nat.add_0_r. lia.
  - change (c :: s) with ([c] ++ s) in Hval. rewrite valid_app in Hval.
    apply andb_prop in Hval as [Hc Hs].
    assert (Hnth : nth_error data (List.length pre) = Some c).
    { rewrite Hd. apply nth_error_middle. }
    destruct (nth_error_split data _ c Hnth) as (Hch & _ & _ & Hlt).
    pose proof (edge_all v data self (List.length pre) (mode_of e)
                  (phase e (List.length t)) (mode_of e) Hw HL I Hlt
                  (mode_of_lt e) (phase_lt e _) (mode_of_lt e)) as Hedge.
    rewrite encoder_at_mode_of, Hch in Hedge. specialize (Hedge Hc).
    unfold transition in Hedge. rewrite Nat.eqb_refl, Hch in Hedge.
    rewrite (without_at e t c (character_count_indicator_length v e)) in Hedge.
    cbn [fst snd] in Hedge.
    specialize (IH (pre ++ [c]) post (t ++ [c])).
    rewrite <- !app_assoc in IH. specialize (IH Hd Hs).
    rewrite !length_app in IH. cbn [List.length] in IH. cbn [List.length].
    replace (List.length pre + S (List.length s))%nat
      with (List.length pre + 1 + List.length s)%nat by lia.
    replace (List.length t + S (List.length s))%nat
      with (List.length t + 1 + List.length s)%nat by lia.
    change (t ++ c :: s) with (t ++ [c] ++ s). lia.
Qed.

Lemma front_weaken self k B B' : B <= B' -> front self k B -> front self k B'.
Proof.
  intros H [[-> H0]|[Hk (m & r & Hm & Hle)]].
  - left. split; [reflexivity | lia].
  - right. split; [exact Hk|]. exists m, r. split; [exact Hm | lia].
Qed.

Lemma seg_lb v data self :
  widths_ok v -> (List.length data <= 360)%nat ->
  row_inv v data (List.length data) (List.length data) self ->
  forall (pre post : str) (s : Segment.t) B,
    data = pre ++ Segment.data s ++ post ->
    valid_segment s ->
    front self (List.length pre) B ->
    front self (List.length pre + List.length (Segment.data s))
      (B + encoder_length (Segment.encoder_class s) (Segment.data s)
             (character_count_indicator_length v (Segment.encoder_class s))).
Proof.
  intros Hw HL I pre post [s e] B Hd Hval HB.
  cbn [Segment.data Segment.encoder_class] in *. unfold valid_segment in Hval.
  cbn [Segment.data Segment.encoder_class] in Hval.
  set (w := character_count_indicator_length v e).
  destruct (widths_ok_at v e Hw) as [Hpos Hinf]. fold w in Hpos, Hinf.
  pose proof (encoder_length_lower e s w) as Hlow.
  destruct s as [|c s].
  - cbn [List.length]. rewrite Nat.add_0_r.
    eapply front_weaken; [|exact HB]. lia.
  - right. split; [cbn [List.length]; lia|].
    destruct HB as [[Hk HB]|[Hk (m0 & r0 & Hm0 & HB)]].
    + exists (mode_of e), (List.length (c :: s)).
      split; [apply mode_of_lt|]. rewrite encoder_at_mode_of.
      apply length_zero_iff_nil in Hk. subst pre.
      pose proof (run_lb v data self e Hw HL I (c :: s) [] post [] Hd Hval)
        as Hrun.
      cbn [List.length app] in Hrun. rewrite !Nat.add_0_l in Hrun.
      rewrite phase_0 in Hrun.
      pose proof (root_header v data _ _ self (mode_of e) I (mode_of_lt e))
        as Hroot.
      rewrite encoder_at_mode_of in Hroot. fold w in Hroot, Hrun.
      rewrite encoder_length_nil in Hrun.
      cbn [List.length Nat.add]. lia.
    + destruct (Nat.eq_dec (mode_of e) m0) as [<-|Hne].
      * exists (mode_of e), (r0 + List.length (c :: s))%nat.
        split; [apply mode_of_lt|]. rewrite encoder_at_mode_of in *.
        pose proof (run_lb v data self e Hw HL I (c :: s) pre post
                      (repeat c r0) Hd Hval) as Hrun.
        rewrite repeat_length in Hrun. fold w in Hrun.
        pose proof (encoder_length_app e (repeat c r0) (c :: s) w ltac:(lia)).
        lia.
      * exists (mode_of e), (List.length (c :: s)).
        split; [apply mode_of_lt|]. rewrite encoder_at_mode_of.
        change (c :: s) with ([c] ++ s) in Hval. rewrite valid_app in Hval.
        apply andb_prop in Hval as [Hc Hs].
        assert (Hnth : nth_error data (List.length pre) = Some c).
        { rewrite Hd. apply nth_error_middle. }
        destruct (nth_error_split data _ c Hnth) as (Hch & _ & _ & Hlt).
        pose proof (edge_all v data self (List.length pre) m0
                      (phase (encoder_at m0) r0) (mode_of e) Hw HL I Hlt
                      Hm0 (phase_lt _ _) (mode_of_lt e)) as Hedge.
        rewrite encoder_at_mode_of, Hch in Hedge. specialize (Hedge Hc).
        unfold transition in Hedge.
        destruct (Nat.eqb_spec (mode_of e) m0) as [?|_]; [contradiction|].
        rewrite Hch, with_cost in Hedge. cbn [fst snd] in Hedge.
        fold w in Hedge.
        pose proof (run_lb v data self e Hw HL I s (pre ++ [c]) post [c])
          as Hrun.
        rewrite <- !app_assoc in Hrun. specialize (Hrun Hd Hs).
        rewrite length_app in Hrun. cbn [List.length app] in Hrun.
        fold w in Hrun. cbn [List.length].
        replace (List.length pre + S (List.length s))%nat
          with (List.length pre + 1 + List.length s)%nat by lia.
        change (S (List.length s)) with (1 + List.length s)%nat.
        lia.
Qed.

Lemma partition_lb v data self :
  widths_ok v -> (List.length data <= 360)%nat ->
  row_inv v data (List.length data) (List.length data) self ->
  forall (P : list Segment.t) (pre post : str) B,
    data = pre ++ List.concat (map Segment.data P) ++ post ->
    Forall valid_segment P ->
    front self (List.length pre) B ->
    front self
      (List.length pre + List.length (List.concat (map Segment.data P)))
      (B + total_length v P).
Proof.
  intros Hw HL I. induction P as [|s P IH]; intros pre post B Hd Hv HB.
  - cbn [map List.concat List.length]. rewrite Nat.add_0_r.
    unfold total_length, sum. simpl. rewrite Z.add_0_r. exact HB.
  - apply Forall_cons_iff in Hv as [Hs HP].
    cbn [map List.concat] in *. rewrite <- app_assoc in Hd.
    pose proof (seg_lb v data self Hw HL I pre _ s B Hd Hs HB) as H1.
    specialize (IH (pre ++ Segment.data s) post
                  (B + encoder_length (Segment.encoder_class s) (Segment.data s)
                         (character_count_indicator_length v
                            (Segment.encoder_class s)))).
    rewrite <- app_assoc in IH. specialize (IH Hd HP).
    rewrite length_app in IH. specialize (IH H1).
    rewrite length_app, Nat.add_assoc, total_length_cons.
    rewrite Z.add_assoc. exact IH.
Qed.

(** ** [compute] on a fresh instance *)

Lemma find_best_spec self data :
  let b := _find_best self data in
  Best.cost b <= INF /\
  (forall m u, (m < 4)%nat -> (u < 3)%nat ->
     Best.cost b <= dpv self (List.length data) m u) /\
  ((Best.cost b = INF /\ Best.index b = (-1, -1, -1)) \/
   exists m u, (m < 4)%nat /\ (u < 3)%nat /\
     Best.index b = (len data, Z.of_nat m, Z.of_nat u) /\
     dpv self (List.length data) m u = Best.cost b /\
     Best.cost b < INF /\
     forall m' u', (m' < 4)%nat -> (u' < 3)%nat ->
       dpv self (List.length data) m' u' = Best.cost b ->
       (m < m')%nat \/ (m = m' /\ (u <= u')%nat)).
Proof.
  intros b. subst b.
  pose proof (best_fold_spec self data cells cells_sorted INF (-1, -1, -1))
    as H. cbv zeta in H.
  set (r := fold_left _ _ _) in H.
  assert (E : _find_best self data
              = let '(best, best_index) := r in
                {| Best.cost := best; Best.index := best_index |})
    by exact (find_best_fold self data).
  rewrite E. clear E. clearbody r.
  destruct r as [best best_index]. cbn [fst snd Best.cost Best.index] in *.
  destruct H as (H1 & H2 & H3). split; [exact H1|]. split.
  - intros m u Hm Hu. apply (H2 (m, u)). apply in_cells. auto.
  - destruct H3 as [E|([m u] & Hc & E1 & E2 & E3 & E4)].
    + left. injection E as -> ->. auto.
    + right. apply in_cells in Hc as [Hm Hu]. cbn [fst snd] in *.
      exists m, u. repeat split; auto.
      intros m' u' Hm' Hu' E'.
      destruct (E4 (m', u')) as [E|[L|[L1 L2]]]; cbn [fst snd] in *; auto.
      * apply in_cells. auto.
      * injection E as <- <-. right. split; [reflexivity | lia].
      * right. split; [exact L1 | lia].
Qed.

Lemma compute_length_total version v P :
  rMQRVersions version = Some v ->
  compute_length P version = Ok (total_length v P).
Proof.
  intros H. unfold compute_length. destruct P; [reflexivity|].
  rewrite H. reflexivity.
Qed.

Lemma compute_fresh fuel data version ecc v :
  rMQRVersions version = Some v -> widths_ok v ->
  len data <= MAX_CHARACTER ->
  Best.cost (_find_best (_compute_costs v data __init__) data)
    <= number_of_data_bits v ecc ->
  number_of_data_bits v ecc < INF ->
  (List.length data <= fuel)%nat ->
  exists segs,
    compute fuel __init__ data version ecc
      = Some (_compute_costs v data __init__, Ok segs) /\
    partition_of data segs /\
    (data <> [] ->
     total_length v segs
     = Best.cost (_find_best (_compute_costs v data __init__) data)) /\
    (data = [] -> segs = []).
Proof.
  intros Hv Hw Hlen Hcost Hcap Hfuel.
  pose proof (compute_costs_inv v data Hlen) as I.
  assert (HL : (List.length data <= 360)%nat)
    by (unfold len, MAX_CHARACTER in Hlen; lia).
  set (self := _compute_costs v data __init__) in *.
  unfold compute.
  destruct (Z.gtb_spec (len data) MAX_CHARACTER) as [?|_]; [lia|].
  rewrite Hv. fold self.
  destruct (find_best_spec self data) as (_ & _ & Hbest).
  set (best := _find_best self data) in *.
  destruct (Z.gtb_spec (Best.cost best) (number_of_data_bits v ecc))
    as [?|_]; [lia|].
  destruct Hbest as [[E _]|(m & u & Hm & Hu & Hidx & Hdp & Hlt & _)]; [lia|].
  rewrite Hidx. unfold _reconstruct_path, len.
  destruct data as [|c0 data'] eqn:Ed.
  - exists []. split; [destruct fuel; reflexivity|]. split.
    + split; [reflexivity | constructor].
    + split; [intros H; contradiction | reflexivity].
  - rewrite <- Ed in *.
    assert (EL : List.length data = S (List.length data'))
      by (rewrite Ed; reflexivity).
    rewrite EL in Hdp. rewrite EL.
    destruct (path_exists v data self Hw HL I (List.length data') m u)
      as (p & segs & cur & Hp & Hfold & Hst); try lia; auto.
    rewrite (reconstruct_path_to self (S (List.length data')) m u p
               (inv_shape_parents _ _ _ _ _ I) Hp) by (auto; lia).
    cbn [rev]. rewrite app_nil_r. unfold _compute_segments. rewrite Hfold.
    destruct (Z.eqb_spec (Z.of_nat m) (-1)) as [?|_]; [lia|]. cbn [negb].
    rewrite py_index_encoders by exact Hm.
    exists (segs ++ [Segment.mk cur (encoder_at m)]).
    split; [reflexivity|].
    destruct Hst as (Hcat & Hsum & Hph & Hvs & Hvc).
    split; [split|split].
    + rewrite map_app, concat_app. cbn [map List.concat Segment.data].
      rewrite app_nil_r, Hcat, <- EL. apply firstn_all.
    + apply Forall_app. split; [exact Hvs|].
      constructor; [exact Hvc | constructor].
    + intros _. rewrite total_length_snoc.
      cbn [Segment.data Segment.encoder_class].
      rewrite Hsum. exact Hdp.
    + rewrite Ed. discriminate.
Qed.

Lemma optimum_le_partition v data P :
  widths_ok v -> len data <= MAX_CHARACTER -> data <> [] ->
  partition_of data P ->
  Best.cost (_find_best (_compute_costs v data __init__) data)
  <= total_length v P.
Proof.
  intros Hw Hlen Hne [Hcat Hval].
  pose proof (compute_costs_inv v data Hlen) as I.
  assert (HL : (List.length data <= 360)%nat)
    by (unfold len, MAX_CHARACTER in Hlen; lia).
  set (self := _compute_costs v data __init__) in *.
  pose proof (partition_lb v data self Hw HL I P [] [] 0) as H.
  cbn [app List.length Nat.add] in H. rewrite app_nil_r, Hcat in H.
  specialize (H eq_refl Hval (or_introl (conj eq_refl (Z.le_refl 0)))).
  destruct H as [[H0 _]|[_ (m & r & Hm & Hle)]].
  - apply length_zero_iff_nil in H0. contradiction.
  - destruct (find_best_spec self data) as (_ & Hmin & _).
    specialize (Hmin m (phase (encoder_at m) r) Hm (phase_lt _ _)). lia.
Qed.

(** ** Digits *)



Section Digits.

Variable v : QrVersion ErrorCorrectionLevel.
Hypothesis Hw : widths_ok v.
Hypothesis Halnum :
  character_count_indicator_length v Numeric
  < character_count_indicator_length v Alphanumeric + 2.
Hypothesis Hbyte :
  character_count_indicator_length v Numeric
  < character_count_indicator_length v Byte + 4.
Hypothesis Hkanji : forall c, is_digit c = true -> kanji_band c = false.




End Digits.

(** ** Used instances *)

Lemma fold_left_preserves {S X} (f : S -> X -> S) (P : S -> Prop)
    (l : list X) :
  (forall s x, In x l -> P s -> P (f s x)) ->
  forall s, P s -> P (fold_left f l s).
Proof.
  induction l as [|y l IH]; intros H s Hs; [exact Hs|].
  simpl. apply IH.
  - intros s0 x Hx. apply H. right. exact Hx.
  - apply H; [left; reflexivity | exact Hs].
Qed.

Lemma linked_init : linked __init__.
Proof.
  unfold __init__. change (Z.to_nat (MAX_CHARACTER + 1)) with 361%nat.
  constructor; cbn [dp parents].
  - apply shaped_repeat.
  - apply shaped_repeat.
  - intros k m u Hk Hm Hu. unfold dpv. cbn [dp].
    rewrite get3_repeat by lia. lia.
  - intros k m u Hk Hm Hu H. exfalso. apply H. unfold dpv. cbn [dp].
    apply get3_repeat; lia.
Qed.

Lemma linked_base_case v self m :
  linked self -> linked (base_case v self m).
Proof.
  intros [Sd Sp Hb Hp]. unfold base_case.
  assert (Hrow : forall k a b, (1 <= k)%nat ->
            dpv {| dp := set3 (dp self) 0 m 0
                           (encoder_length (encoder_at m) []
                              (character_count_indicator_length v
                                 (encoder_at m)));
                   parents := set3 (parents self) 0 m 0 (0, 0, 0) |} k a b
            = dpv self k a b /\
            parent_of {| dp := set3 (dp self) 0 m 0
                           (encoder_length (encoder_at m) []
                              (character_count_indicator_length v
                                 (encoder_at m)));
                   parents := set3 (parents self) 0 m 0 (0, 0, 0) |} k a b
            = parent_of self k a b).
  { intros k a b Hk. unfold dpv, parent_of. cbn [dp parents].
    split; apply get3_set3_other; intros [=]; lia. }
  constructor; cbn [dp parents].
  - apply shaped_set3. exact Sd.
  - apply shaped_set3. exact Sp.
  - intros k a b Hk Ha Hb'. destruct (Hrow k a b ltac:(lia)) as [-> _]. auto.
  - intros k a b Hk Ha Hb' Hreach.
    destruct (Hrow (S k) a b ltac:(lia)) as [E1 E2]. rewrite E1 in Hreach.
    destruct (Hp k a b Hk Ha Hb' Hreach) as (m0 & u0 & Hm0 & Hu0 & Hpar & Hsrc).
    exists m0, u0. rewrite E2. repeat split; auto.
    intros Hk1. destruct (Hrow k m0 u0 Hk1) as [-> _]. auto.
Qed.

Lemma relax_same_row v data n m u self nm a b :
  dpv (relax v data n m u self nm) n a b = dpv self n a b.
Proof.
  destruct (relax_cases v data n m u self nm) as [[-> _]|(_ & _ & Ed & _)];
    [reflexivity|].
  unfold dpv. rewrite Ed. apply get3_set3_other. intros [=]. lia.
Qed.

Lemma linked_relax v data n m u nm self :
  (n < 360)%nat -> (m < 4)%nat -> (u < 3)%nat -> (nm < 4)%nat ->
  linked self -> dpv self n m u <> INF ->
  linked (relax v data n m u self nm).
Proof.
  intros Hn Hm Hu Hnm L Hsrc.
  pose proof (transition_phase v data n m u nm) as Hnl.
  destruct (relax_cases v data n m u self nm) as [[-> _]|(_ & Hlt & Ed & Ep)];
    [exact L|].
  set (s' := relax v data n m u self nm) in *.
  set (cost := fst (transition v data n m u nm)) in *.
  set (nl := snd (transition v data n m u nm)) in *.
  destruct L as [Sd Sp Hb Hp].
  assert (Hother : forall k a b, (k, a, b) <> ((n + 1)%nat, nm, nl) ->
            dpv s' k a b = dpv self k a b /\
            parent_of s' k a b = parent_of self k a b).
  { intros k a b Hne. unfold dpv, parent_of. rewrite Ed, Ep.
    split; apply get3_set3_other; congruence. }
  assert (Hsame : dpv s' (n + 1) nm nl = dpv self n m u + cost /\
            parent_of s' (n + 1) nm nl
            = (Z.of_nat n, Z.of_nat m, Z.of_nat u)).
  { unfold dpv, parent_of. rewrite Ed, Ep.
    split; apply get3_set3_same; auto; lia. }
  pose proof (Hb (n + 1)%nat nm nl ltac:(lia) Hnm Hnl) as Hold.
  assert (Hreached : forall k a b, (1 <= k <= 360)%nat -> (a < 4)%nat ->
            (b < 3)%nat -> dpv self k a b <> INF -> dpv s' k a b <> INF).
  { intros k a b Hk Ha Hb' Hr.
    destruct (Nat.eq_dec k (n + 1)) as [->|Hk'];
      [destruct (Nat.eq_dec a nm) as [->|Ha'];
       [destruct (Nat.eq_dec b nl) as [->|Hb'']|]|].
    - destruct Hsame as [-> _]. lia.
    - destruct (Hother (n + 1)%nat nm b ltac:(congruence)) as [-> _]. exact Hr.
    - destruct (Hother (n + 1)%nat a b ltac:(congruence)) as [-> _]. exact Hr.
    - destruct (Hother k a b ltac:(congruence)) as [-> _]. exact Hr. }
  constructor.
  - rewrite Ed. apply shaped_set3. exact Sd.
  - rewrite Ep. apply shaped_set3. exact Sp.
  - intros k a b Hk Ha Hb'.
    destruct (Nat.eq_dec k (n + 1)) as [->|Hk'];
      [destruct (Nat.eq_dec a nm) as [->|Ha'];
       [destruct (Nat.eq_dec b nl) as [->|Hb'']|]|].
    + destruct Hsame as [-> _]. lia.
    + destruct (Hother (n + 1)%nat nm b ltac:(congruence)) as [-> _]. auto.
    + destruct (Hother (n + 1)%nat a b ltac:(congruence)) as [-> _]. auto.
    + destruct (Hother k a b ltac:(congruence)) as [-> _]. auto.
  - intros k a b Hk Ha Hb' Hreach.
    assert (Hcase : (S k, a, b) = ((n + 1)%nat, nm, nl) \/
                    (S k, a, b) <> ((n + 1)%nat, nm, nl)).
    { destruct (Nat.eq_dec (S k) (n + 1)) as [->|];
        [destruct (Nat.eq_dec a nm) as [->|];
         [destruct (Nat.eq_dec b nl) as [->|]|]|];
        [left; reflexivity | right; congruence..]. }
    destruct Hcase as [E|Hne].
    + injection E as Ek -> ->. assert (k = n) as -> by lia.
      exists m, u. replace (S n) with (n + 1)%nat by lia.
      destruct Hsame as [_ ->]. repeat split; auto.
      intros Hn1. apply Hreached; auto; lia.
    + destruct (Hother (S k) a b Hne) as [E1 E2]. rewrite E1 in Hreach.
      destruct (Hp k a b Hk Ha Hb' Hreach)
        as (m0 & u0 & Hm0 & Hu0 & Hpar & Hsrc0).
      exists m0, u0. rewrite E2. repeat split; auto.
      intros Hk1. apply Hreached; auto; lia.
Qed.

Lemma linked_relax_row v data n self :
  (n < 360)%nat -> linked self -> linked (relax_row v data self n).
Proof.
  intros Hn. unfold relax_row. apply fold_left_preserves.
  intros s m Hm Ls. apply in_seq in Hm.
  revert s Ls. apply fold_left_preserves.
  intros s u Hu Ls. apply in_seq in Hu. unfold relax_state.
  fold (dpv s n m u).
  destruct (Z.eqb_spec (dpv s n m u) INF) as [_|Hsrc]; [exact Ls|].
  apply (fold_left_preserves (relax v data n m u)
           (fun s => linked s /\ dpv s n m u <> INF)); [|split; assumption].
  intros s0 nm Hnm [L0 H0]. apply in_seq in Hnm. split.
  - apply linked_relax; auto; lia.
  - rewrite relax_same_row. exact H0.
Qed.

Lemma linked_compute_costs v data self :
  len data <= MAX_CHARACTER -> linked self ->
  linked (_compute_costs v data self).
Proof.
  intros Hlen L. unfold _compute_costs. cbv zeta.
  apply fold_left_preserves.
  - intros s n Hn. apply in_seq in Hn. apply linked_relax_row.
    unfold len, MAX_CHARACTER in Hlen. lia.
  - apply fold_left_preserves; [|exact L].
    intros s m _. apply linked_base_case.
Qed.

Lemma linked_compute fuel self data version ecc self' r :
  linked self -> compute fuel self data version ecc = Some (self', r) ->
  linked self'.
Proof.
  intros L. unfold compute.
  destruct (Z.gtb_spec (len data) MAX_CHARACTER) as [_|Hlen];
    [intros [= <- _]; exact L|].
  destruct (rMQRVersions version) as [v|]; [|intros [= <- _]; exact L].
  pose proof (linked_compute_costs v data self Hlen L) as L'.
  destruct (Best.cost _ >? number_of_data_bits v ecc);
    [intros [= <- _]; exact L'|].
  destruct (_reconstruct_path _ _ _) as [[p| | |]|];
    try discriminate; intros [= <- _]; exact L'.
Qed.

Lemma linked_path self data :
  linked self ->
  forall k m u,
    (k < List.length data)%nat -> (k < 360)%nat ->
    (m < 4)%nat -> (u < 3)%nat ->
    dpv self (S k) m u <> INF ->
    exists p segs cur,
      path_to self (S k) m u p /\
      fold_left (segments_step data) p (Ok ([], [], -1))
        = Ok (segs, cur, Z.of_nat m) /\
      List.concat (map Segment.data segs) ++ cur = firstn (S k) data.
Proof.
  intros L. induction k as [|k IH]; intros m u Hk Hk' Hm Hu Hreach;
    destruct (linked_parent self L _ m u Hk' Hm Hu Hreach)
      as (m0 & u0 & Hm0 & Hu0 & Hpar & Hsrc).
  - destruct (nth_error data 0) as [c|] eqn:Ec;
      [|apply nth_error_None in Ec; lia].
    destruct (nth_error_split data 0 c Ec) as (_ & Hpy & Hfirst & _).
    exists ([] ++ [(Z.of_nat 1, Z.of_nat m, Z.of_nat u)]), [], [c].
    split; [|split].
    + eapply path_step; eauto. constructor.
    + cbn [app fold_left segments_step fst snd].
      change (-1 =? -1) with true. cbv iota. rewrite Hpy. reflexivity.
    + rewrite Hfirst. reflexivity.
  - destruct (IH m0 u0 ltac:(lia) ltac:(lia) Hm0 Hu0 (Hsrc ltac:(lia)))
      as (p' & segs' & cur' & Hp' & Hfold' & Hcat).
    destruct (nth_error data (S k)) as [c|] eqn:Ec;
      [|apply nth_error_None in Ec; lia].
    destruct (nth_error_split data (S k) c Ec) as (_ & Hpy & Hfirst & _).
    exists (p' ++ [(Z.of_nat (S (S k)), Z.of_nat m, Z.of_nat u)]).
    destruct (Nat.eq_dec m0 m) as [->|Hne].
    + exists segs', (cur' ++ [c]). split; [|split].
      * eapply path_step; eauto.
      * rewrite fold_left_app, Hfold'. cbn [fold_left segments_step fst snd].
        destruct (Z.eqb_spec (Z.of_nat m) (-1)) as [?|_]; [lia|].
        rewrite Z.eqb_refl, Hpy. reflexivity.
      * rewrite app_assoc, Hcat, Hfirst. reflexivity.
    + exists (segs' ++ [Segment.mk cur' (encoder_at m0)]), [c].
      split; [|split].
      * eapply path_step; eauto.
      * rewrite fold_left_app, Hfold'. cbn [fold_left segments_step fst snd].
        destruct (Z.eqb_spec (Z.of_nat m0) (-1)) as [?|_]; [lia|].
        destruct (Z.eqb_spec (Z.of_nat m0) (Z.of_nat m)) as [?|_]; [lia|].
        rewrite py_index_encoders, Hpy by exact Hm0. reflexivity.
      * rewrite map_app, concat_app. cbn [map List.concat Segment.data].
        rewrite app_nil_r, Hcat, Hfirst. reflexivity.
Qed.

Lemma base_case_root v self m :
  shaped (dp self) -> (m < 4)%nat ->
  dpv (fold_left (base_case v) (seq 0 (List.length encoders)) self) 0 m 0
  = encoder_length (encoder_at m) []
      (character_count_indicator_length v (encoder_at m)).
Proof.
  intros Sd Hm. cbn [List.length encoders seq fold_left]. unfold base_case.
  cbn [dp parents]. unfold dpv. cbn [dp].
  assert (S1 := shaped_set3 (dp self) 0 0 0
                  (encoder_length (encoder_at 0) []
                     (character_count_indicator_length v (encoder_at 0))) Sd).
  assert (S2 := shaped_set3 _ 0 1 0
                  (encoder_length (encoder_at 1) []
                     (character_count_indicator_length v (encoder_at 1))) S1).
  assert (S3 := shaped_set3 _ 0 2 0
                  (encoder_length (encoder_at 2) []
                     (character_count_indicator_length v (encoder_at 2))) S2).
  destruct m as [|[|[|[|m]]]]; try lia.
  - rewrite !get3_set3_other by discriminate.
    apply get3_set3_same; auto; lia.
  - rewrite !get3_set3_other by discriminate.
    apply get3_set3_same; auto; lia.
  - rewrite !get3_set3_other by discriminate.
    apply get3_set3_same; auto; lia.
  - apply get3_set3_same; auto; lia.
Qed.

(** ** The statements about [compute] *)

(** C1 (as amended): for a non-empty input of at most 360 characters
    whose optimum fits the capacity, [compute] on a fresh instance returns
    a mode-partition of the input whose [compute_length] equals the cost
    that [_find_best] finds in the table, and no mode-partition of the
    input has a smaller [compute_length].  The version's widths are
    non-negative; its headers and its capacity are below [INF]. *)
Theorem compute_returns_minimum fuel data version ecc v :
  rMQRVersions version = Some v -> widths_ok v ->
  number_of_data_bits v ecc < INF ->
  Forall scalar data ->
  data <> [] -> len data <= MAX_CHARACTER ->
  Best.cost (_find_best (_compute_costs v data __init__) data)
    <= number_of_data_bits v ecc ->
  (List.length data <= fuel)%nat ->
  exists segs,
    compute fuel __init__ data version ecc
      = Some (_compute_costs v data __init__, Ok segs) /\
    partition_of data segs /\
    compute_length segs version
      = Ok (Best.cost (_find_best (_compute_costs v data __init__) data)) /\
    forall P, partition_of data P ->
      exists c, compute_length P version = Ok c /\
        Best.cost (_find_best (_compute_costs v data __init__) data) <= c.
Proof.
  intros Hv Hw Hcap _ Hne Hlen Hcost Hfuel.
  destruct (compute_fresh fuel data version ecc v Hv Hw Hlen Hcost Hcap Hfuel)
    as (segs & Hrun & Hpart & Htot & _).
  exists segs. split; [exact Hrun|]. split; [exact Hpart|]. split.
  - rewrite (compute_length_total version v segs Hv), (Htot Hne). reflexivity.
  - intros P HP. exists (total_length v P).
    split; [apply compute_length_total; exact Hv|].
    apply optimum_le_partition; assumption.
Qed.

(** C2: for an input of at most 360 characters whose optimum fits the
    capacity, [compute], on a fresh instance or on one left by earlier
    calls ([linked_init], [linked_compute]), returns segments whose [data]
    fields, concatenated in order, are the input.  The capacity is below
    [INF]; [fuel] bounds the iterations of the loop of
    [_reconstruct_path], and the length of the input suffices. *)
Theorem segments_concatenate_to_input fuel self data version ecc v :
  linked self ->
  rMQRVersions version = Some v ->
  number_of_data_bits v ecc < INF ->
  Forall scalar data ->
  len data <= MAX_CHARACTER ->
  Best.cost (_find_best (_compute_costs v data self) data)
    <= number_of_data_bits v ecc ->
  (List.length data <= fuel)%nat ->
  exists segs,
    compute fuel self data version ecc
      = Some (_compute_costs v data self, Ok segs) /\
    List.concat (map Segment.data segs) = data.
Proof.
  intros L Hv Hcap _ Hlen Hcost Hfuel.
  pose proof (linked_compute_costs v data self Hlen L) as L'.
  assert (HL : (List.length data <= 360)%nat)
    by (unfold len, MAX_CHARACTER in Hlen; lia).
  set (self' := _compute_costs v data self) in *.
  unfold compute.
  destruct (Z.gtb_spec (len data) MAX_CHARACTER) as [?|_]; [lia|].
  rewrite Hv. fold self'.
  destruct (find_best_spec self' data) as (_ & _ & Hbest).
  set (best := _find_best self' data) in *.
  destruct (Z.gtb_spec (Best.cost best) (number_of_data_bits v ecc))
    as [?|_]; [lia|].
  destruct Hbest as [[E _]|(m & u & Hm & Hu & Hidx & Hdp & Hlt & _)]; [lia|].
  rewrite Hidx. unfold _reconstruct_path, len.
  destruct data as [|c0 data'] eqn:Ed.
  - exists []. split; [destruct fuel; reflexivity | reflexivity].
  - rewrite <- Ed in *.
    assert (EL : List.length data = S (List.length data'))
      by (rewrite Ed; reflexivity).
    rewrite EL in Hdp. rewrite EL.
    destruct (linked_path self' data L' (List.length data') m u)
      as (p & segs & cur & Hp & Hfold & Hcat); try lia; auto.
    rewrite (reconstruct_path_to self' (S (List.length data')) m u p
               (linked_parents _ L') Hp) by (auto; lia).
    cbn [rev]. rewrite app_nil_r. unfold _compute_segments. rewrite Hfold.
    destruct (Z.eqb_spec (Z.of_nat m) (-1)) as [?|_]; [lia|]. cbn [negb].
    rewrite py_index_encoders by exact Hm.
    exists (segs ++ [Segment.mk cur (encoder_at m)]).
    split; [reflexivity|].
    rewrite map_app, concat_app. cbn [map List.concat Segment.data].
    rewrite app_nil_r, Hcat, <- EL. apply firstn_all.
Qed.


Lemma relax_keeps_on_tie v data n m u self nm :
  dpv self (n + 1) nm (snd (transition v data n m u nm))
  <= dpv self n m u + fst (transition v data n m u nm) ->
  relax v data n m u self nm = self.
Proof.
  intros H.
  destruct (relax_cases v data n m u self nm) as [[E _]|(_ & Hlt & _)];
    [exact E | lia].
Qed.

(** C4: inside the loops of [_compute_costs] (an input of at most 360
    characters, [n < len(data)], modes and unfilled lengths in range,
    tables of the shape [__init__] gives them), a candidate whose cost
    equals the cost stored in its target leaves the tables as they are,
    and [_find_best], when some position of the last row is reached,
    returns a position of minimal cost that comes first in the order of
    [encoders] (and of [unfilled_length] within a mode) among the
    positions of that cost. *)
Theorem ties_keep_the_first v data self n m u nm m1 u1 :
  shaped (dp self) -> shaped (parents self) ->
  len data <= MAX_CHARACTER ->
  (n < List.length data)%nat ->
  (m < 4)%nat -> (u < 3)%nat -> (nm < 4)%nat ->
  dpv self n m u + fst (transition v data n m u nm)
    = dpv self (n + 1) nm (snd (transition v data n m u nm)) ->
  (m1 < 4)%nat -> (u1 < 3)%nat ->
  dpv self (List.length data) m1 u1 < INF ->
  relax v data n m u self nm = self /\
  exists mb ub, (mb < 4)%nat /\ (ub < 3)%nat /\
    Best.index (_find_best self data)
      = (len data, Z.of_nat mb, Z.of_nat ub) /\
    Best.cost (_find_best self data) = dpv self (List.length data) mb ub /\
    (forall m' u', (m' < 4)%nat -> (u' < 3)%nat ->
       Best.cost (_find_best self data) <= dpv self (List.length data) m' u') /\
    (forall m' u', (m' < 4)%nat -> (u' < 3)%nat ->
       dpv self (List.length data) m' u' = Best.cost (_find_best self data) ->
       (mb < m')%nat \/ (mb = m' /\ (ub <= u')%nat)).
Proof.
  intros _ _ _ _ _ _ _ Htie Hm1 Hu1 Hreach. split.
  - apply relax_keeps_on_tie. lia.
  - destruct (find_best_spec self data) as (_ & Hmin & Hbest).
    destruct Hbest as [[E _]|(mb & ub & Hmb & Hub & Hidx & Hdp & _ & Hfirst)].
    + specialize (Hmin m1 u1 Hm1 Hu1). lia.
    + exists mb, ub. repeat split; auto.
Qed.

Lemma reconstruct_loop_outcome fuel self : forall path index r,
  reconstruct_loop fuel self path index = Some r ->
  r = IndexError \/ exists p, r = Ok p.
Proof.
  induction fuel as [|fuel IH]; intros path index r; cbn [reconstruct_loop];
    destruct (negb (fst (fst index) =? 0)); try discriminate;
    try (intros [= <-]; right; eexists; reflexivity).
  destruct (py_get3 (parents self) index) as [i|].
  - apply IH.
  - intros [= <-]. left. reflexivity.
Qed.

Lemma segments_fold_outcome data path : forall acc,
  (acc = IndexError \/ exists a, acc = Ok a) ->
  fold_left (segments_step data) path acc = IndexError \/
  exists a, fold_left (segments_step data) path acc = Ok a.
Proof.
  induction path as [|p path IH]; intros acc Hacc; [exact Hacc|].
  cbn [fold_left]. apply IH.
  destruct Hacc as [->|[[[segs cur] mode] ->]]; [left; reflexivity|].
  unfold segments_step.
  destruct (mode =? -1); [|destruct (mode =? snd (fst p))];
    try destruct (py_index encoders mode);
    destruct (py_index data (fst (fst p) - 1));
    try (left; reflexivity); right; eexists; reflexivity.
Qed.

Lemma compute_segments_outcome path data :
  _compute_segments path data <> DataTooLongError.
Proof.
  unfold _compute_segments.
  destruct (segments_fold_outcome data path (Ok ([], [], -1)))
    as [->|[[[segs cur] mode] ->]]; try discriminate.
  - right. eexists. reflexivity.
  - destruct (negb (mode =? -1)); [|discriminate].
    destruct (py_index encoders mode); discriminate.
Qed.

(** C5: for an input of at most 360 characters, on any instance, when
    the cost that [_find_best] finds exceeds [number_of_data_bits] of the
    version and level, [compute] raises [DataTooLongError] and returns no
    segments; when it does not exceed it, [compute] does not raise
    [DataTooLongError]. *)
Theorem capacity_is_enforced fuel self data version ecc v :
  Forall scalar data ->
  len data <= MAX_CHARACTER -> rMQRVersions version = Some v ->
  (Best.cost (_find_best (_compute_costs v data self) data)
     > number_of_data_bits v ecc ->
   compute fuel self data version ecc
   = Some (_compute_costs v data self, DataTooLongError)) /\
  (Best.cost (_find_best (_compute_costs v data self) data)
     <= number_of_data_bits v ecc ->
   forall r, compute fuel self data version ecc = Some r ->
             snd r <> DataTooLongError).
Proof.
  intros _ Hlen Hv. unfold compute.
  destruct (Z.gtb_spec (len data) MAX_CHARACTER) as [?|_]; [lia|].
  rewrite Hv. split; intros Hc.
  - destruct (Z.gtb_spec
                (Best.cost (_find_best (_compute_costs v data self) data))
                (number_of_data_bits v ecc)) as [_|?]; [reflexivity | lia].
  - destruct (Z.gtb_spec
                (Best.cost (_find_best (_compute_costs v data self) data))
                (number_of_data_bits v ecc)) as [?|_]; [lia|].
    intros r. unfold _reconstruct_path.
    destruct (reconstruct_loop fuel (_compute_costs v data self) []
                (Best.index (_find_best (_compute_costs v data self) data)))
      as [o|] eqn:E; [|discriminate].
    destruct (reconstruct_loop_outcome _ _ _ _ _ E) as [->|[p ->]];
      intros [= <-]; cbn [snd]; [discriminate|].
    apply compute_segments_outcome.
Qed.

(** C6: for an input of more than 360 characters [compute] raises
    [DataTooLongError] at once, whatever the version and the level, and
    leaves the tables as they were. *)
Theorem character_cap_is_checked_first fuel self data version ecc :
  len data > MAX_CHARACTER ->
  compute fuel self data version ecc = Some (self, DataTooLongError).
Proof.
  intros H. unfold compute.
  destruct (Z.gtb_spec (len data) MAX_CHARACTER) as [_|?];
    [reflexivity | lia].
Qed.

(** C9 (as amended): after the base case, every root parent cell
    [parents[0][mode][0]] holds [(0, 0, 0)]. *)
Theorem root_parents_hold_origin v self mode :
  shaped (parents self) -> (mode < 4)%nat ->
  parent_of (fold_left (base_case v) (seq 0 (List.length encoders)) self)
    0 mode 0
  = (0, 0, 0).
Proof.
  intros Sp Hm. cbn [List.length encoders seq fold_left]. unfold base_case.
  cbn [dp parents]. unfold parent_of. cbn [parents].
  assert (S1 := shaped_set3 (parents self) 0 0 0 (0, 0, 0) Sp).
  assert (S2 := shaped_set3 _ 0 1 0 (0, 0, 0) S1).
  assert (S3 := shaped_set3 _ 0 2 0 (0, 0, 0) S2).
  destruct mode as [|[|[|[|mode]]]]; try lia.
  - rewrite !get3_set3_other by discriminate.
    apply get3_set3_same; auto; lia.
  - rewrite !get3_set3_other by discriminate.
    apply get3_set3_same; auto; lia.
  - rewrite !get3_set3_other by discriminate.
    apply get3_set3_same; auto; lia.
  - apply get3_set3_same; auto; lia.
Qed.

(** C10: for the empty input, when the header of an empty segment of
    some mode fits the capacity (itself below [INF]), [compute], on a
    fresh instance or on one left by earlier calls, returns the empty
    list of segments, whatever the fuel. *)
Theorem empty_input_gives_no_segment fuel self version ecc v e :
  linked self ->
  rMQRVersions version = Some v ->
  number_of_data_bits v ecc < INF ->
  encoder_length e [] (character_count_indicator_length v e)
    <= number_of_data_bits v ecc ->
  compute fuel self [] version ecc
  = Some (_compute_costs v [] self, Ok []).
Proof.
  intros L Hv Hcap He. unfold compute.
  destruct (Z.gtb_spec (len (@nil char)) MAX_CHARACTER) as [H|_];
    [unfold len, MAX_CHARACTER in H; simpl in H; lia|].
  rewrite Hv.
  destruct (find_best_spec (_compute_costs v [] self) [])
    as (_ & Hmin & Hbest).
  specialize (Hmin (mode_of e) 0%nat (mode_of_lt e) ltac:(lia)).
  cbn [List.length] in Hmin.
  pose proof (base_case_root v self (mode_of e) (linked_dp _ L) (mode_of_lt e))
    as Hroot.
  change (fold_left (base_case v) (seq 0 (List.length encoders)) self)
    with (_compute_costs v [] self) in Hroot.
  rewrite encoder_at_mode_of in Hroot.
  destruct (Z.gtb_spec
              (Best.cost (_find_best (_compute_costs v [] self) []))
              (number_of_data_bits v ecc)) as [?|_]; [lia|].
  destruct Hbest as [[E _]|(m & u & _ & _ & Hidx & _)]; [lia|].
  rewrite Hidx. destruct fuel; reflexivity.
Qed.

Lemma base_case_overwrites v1 v2 :
  fold_left (base_case v2) (seq 0 (List.length encoders))
    (_compute_costs v1 [] __init__)
  = fold_left (base_case v2) (seq 0 (List.length encoders)) __init__.
Proof. vm_compute. reflexivity. Qed.

(** An earlier call with the empty input writes the root cells only,
    which every call rewrites: the next call on that instance gives what
    a call on a fresh instance gives. *)
Lemma reuse_after_empty_input fuel1 fuel2 version1 ecc1 self1 r1
    data2 version2 ecc2 :
  compute fuel1 __init__ [] version1 ecc1 = Some (self1, r1) ->
  option_map snd (compute fuel2 self1 data2 version2 ecc2)
  = option_map snd (compute fuel2 __init__ data2 version2 ecc2).
Proof.
  intros H1.
  assert (Hs : self1 = __init__ \/
               exists v1, self1 = _compute_costs v1 [] __init__).
  { unfold compute in H1.
    destruct (len (@nil char) >? MAX_CHARACTER); [left; congruence|].
    destruct (rMQRVersions version1) as [v1|]; [|left; congruence].
    right. exists v1.
    destruct (Best.cost _ >? number_of_data_bits v1 ecc1); [congruence|].
    destruct (_reconstruct_path _ _ _) as [[p| | |]|]; congruence. }
  destruct Hs as [->|[v1 ->]]; [reflexivity|].
  unfold compute. destruct (len data2 >? MAX_CHARACTER); [reflexivity|].
  destruct (rMQRVersions version2) as [v2|]; [|reflexivity].
  assert (E : _compute_costs v2 data2 (_compute_costs v1 [] __init__)
              = _compute_costs v2 data2 __init__).
  { unfold _compute_costs at 1 3. cbv zeta.
    rewrite base_case_overwrites. reflexivity. }
  rewrite E. reflexivity.
Qed.

(** ** Further properties of segments.py *)

(** X5: [compute_length] of no segment is 0 whatever the version name,
    known or not; of at least one segment under an unknown version name
    it raises [KeyError]. *)
Theorem compute_length_missing_version segments version :
  rMQRVersions version = None ->
  compute_length segments version
  = match segments with [] => Ok 0 | _ :: _ => KeyError end.
Proof.
  intros H. unfold compute_length. destruct segments; [reflexivity|].
  rewrite H. reflexivity.
Qed.


(** X7: for an input of at most 360 characters and a version name that
    [rMQRVersions] does not hold, [compute] raises [KeyError] and leaves
    the tables as they were. *)
Theorem unknown_version_is_a_key_error fuel self data version ecc :
  len data <= MAX_CHARACTER -> rMQRVersions version = None ->
  compute fuel self data version ecc = Some (self, KeyError).
Proof.
  intros Hlen H. unfold compute.
  destruct (Z.gtb_spec (len data) MAX_CHARACTER) as [?|_]; [lia|].
  rewrite H. reflexivity.
Qed.

Lemma no_repeat_snoc l : forall a b,
  no_repeat (l ++ [a]) -> a <> b -> no_repeat ((l ++ [a]) ++ [b]).
Proof.
  induction l as [|x l IH]; intros a b H Hab.
  - simpl. auto.
  - destruct l as [|y l].
    + simpl in *. destruct H as [Hxa _]. auto.
    + change (no_repeat (x :: (y :: l) ++ [a])) in H.
      cbn [app no_repeat] in H. destruct H as [Hxy H].
      change (no_repeat (x :: ((y :: l) ++ [a]) ++ [b])).
      cbn [app no_repeat]. split; [exact Hxy|].
      apply (IH a b); assumption.
Qed.

Lemma encoder_at_inj m m' :
  (m < 4)%nat -> (m' < 4)%nat -> encoder_at m = encoder_at m' -> m = m'.
Proof.
  intros Hm Hm' E. rewrite <- (mode_of_encoder_at m Hm),
    <- (mode_of_encoder_at m' Hm'), E. reflexivity.
Qed.

Lemma modes_of_snoc segs s :
  modes_of (segs ++ [s])
  = modes_of segs
    ++ repeat (Segment.encoder_class s) (List.length (Segment.data s)).
Proof.
  unfold modes_of. rewrite flat_map_app. cbn [flat_map].
  rewrite app_nil_r. reflexivity.
Qed.

Lemma repeat_snoc {A} (x : A) n : repeat x (n + 1) = repeat x n ++ [x].
Proof. rewrite repeat_app. reflexivity. Qed.

Lemma py_index_entry (data : str) n :
  1 <= n <= len data ->
  py_index data (n - 1) = Some (nth (Z.to_nat (n - 1)) data 0%N).
Proof.
  intros H. unfold len in H.
  replace (n - 1) with (Z.of_nat (Z.to_nat (n - 1))) at 1 by lia.
  apply py_index_nat. lia.
Qed.

Lemma py_index_mode m :
  0 <= m < 4 -> py_index encoders m = Some (encoder_at (Z.to_nat m)).
Proof.
  intros H. replace m with (Z.of_nat (Z.to_nat m)) at 1 by lia.
  apply py_index_encoders. lia.
Qed.

Lemma segments_fold_state data path :
  Forall (entry_ok data) path ->
  (path = [] /\
   fold_left (segments_step data) path (Ok ([], [], -1)) = Ok ([], [], -1))
  \/
  exists segs cur m,
    fold_left (segments_step data) path (Ok ([], [], -1))
      = Ok (segs, cur, m) /\
    0 <= m < 4 /\
    List.concat (map Segment.data segs) ++ cur
      = map (fun p => nth (Z.to_nat (fst (fst p) - 1)) data 0%N) path /\
    modes_of segs ++ repeat (encoder_at (Z.to_nat m)) (List.length cur)
      = map (fun p => encoder_at (Z.to_nat (snd (fst p)))) path /\
    merged (segs ++ [Segment.mk cur (encoder_at (Z.to_nat m))]).
Proof.
  induction path as [|p path IH] using rev_ind; intros Hok.
  - left. split; reflexivity.
  - right. apply Forall_app in Hok as [Hok Hp].
    apply Forall_cons_iff in Hp as [[Hn Hm] _].
    rewrite fold_left_app, !map_app. cbn [fold_left map].
    pose proof (py_index_entry data _ Hn) as Hpy.
    destruct (IH Hok) as [[-> ->]|(segs & cur & m & -> & Hm0 & Hcat & Hmodes
                                   & Hdata & Hrep)].
    + exists [], [nth (Z.to_nat (fst (fst p) - 1)) data 0%N], (snd (fst p)).
      unfold segments_step. change (-1 =? -1) with true. cbv iota.
      rewrite Hpy. split; [reflexivity|]. split; [exact Hm|].
      split; [reflexivity|]. split; [reflexivity|].
      split; [repeat constructor; discriminate | exact I].
    + unfold segments_step.
      destruct (Z.eqb_spec m (-1)) as [?|_]; [lia|].
      destruct (Z.eqb_spec m (snd (fst p))) as [<-|Hne].
      * rewrite Hpy.
        exists segs, (cur ++ [nth (Z.to_nat (fst (fst p) - 1)) data 0%N]), m.
        split; [reflexivity|]. split; [exact Hm0|].
        split; [rewrite app_assoc, Hcat; reflexivity|].
        split.
        { rewrite length_app. cbn [List.length].
          rewrite repeat_snoc, app_assoc, Hmodes. reflexivity. }
        split.
        { apply Forall_app in Hdata as [Hd _]. apply Forall_app.
          split; [exact Hd|]. constructor; [|constructor].
          cbn [Segment.data]. destruct cur; discriminate. }
        { rewrite map_app in *. exact Hrep. }
      * rewrite (py_index_mode m Hm0), Hpy.
        exists (segs ++ [Segment.mk cur (encoder_at (Z.to_nat m))]),
          [nth (Z.to_nat (fst (fst p) - 1)) data 0%N], (snd (fst p)).
        split; [reflexivity|]. split; [exact Hm|].
        split.
        { rewrite map_app, concat_app. cbn [map List.concat Segment.data].
          rewrite app_nil_r, Hcat. reflexivity. }
        split.
        { rewrite modes_of_snoc. cbn [Segment.data Segment.encoder_class
                                        List.length repeat].
          rewrite Hmodes. reflexivity. }
        split.
        { apply Forall_app. split; [exact Hdata|].
          constructor; [discriminate | constructor]. }
        { rewrite !map_app in *. cbn [map Segment.encoder_class] in *.
          apply no_repeat_snoc; [exact Hrep|].
          intros E. apply encoder_at_inj in E; lia. }
Qed.

Lemma segments_of_path data path :
  Forall (entry_ok data) path ->
  exists segs,
    _compute_segments path data = Ok segs /\
    List.concat (map Segment.data segs)
      = map (fun p => nth (Z.to_nat (fst (fst p) - 1)) data 0%N) path /\
    modes_of segs
      = map (fun p => encoder_at (Z.to_nat (snd (fst p)))) path /\
    merged segs.
Proof.
  intros Hok. unfold _compute_segments.
  destruct (segments_fold_state data path Hok)
    as [[-> ->]|(segs & cur & m & -> & Hm & Hcat & Hmodes & Hmerged)].
  - exists []. repeat split; constructor.
  - destruct (Z.eqb_spec m (-1)) as [?|_]; [lia|]. cbn [negb].
    rewrite (py_index_mode m Hm).
    exists (segs ++ [Segment.mk cur (encoder_at (Z.to_nat m))]).
    split; [reflexivity|]. split; [|split; [|exact Hmerged]].
    + rewrite map_app, concat_app. cbn [map List.concat Segment.data].
      rewrite app_nil_r. exact Hcat.
    + rewrite modes_of_snoc. exact Hmodes.
Qed.

(** X8: for a path whose entries point at characters of [data] and at
    elements of [encoders], [_compute_segments] raises nothing and merges
    runs: the [data] fields, concatenated, are the characters
    [data[p[0] - 1]] in the order of the path; every character keeps the
    encoder of its entry; no segment is empty; neighbours differ in their
    encoder. *)
Theorem compute_segments_merges_runs data path :
  Forall (entry_ok data) path ->
  exists segs,
    _compute_segments path data = Ok segs /\
    List.concat (map Segment.data segs)
      = map (fun p => nth (Z.to_nat (fst (fst p) - 1)) data 0%N) path /\
    modes_of segs
      = map (fun p => encoder_at (Z.to_nat (snd (fst p)))) path /\
    merged segs.
Proof. exact (segments_of_path data path). Qed.

Lemma path_to_entries self (data : str) k m u p :
  path_to self k m u p -> (m < 4)%nat -> (u < 3)%nat ->
  (k <= List.length data)%nat ->
  Forall (entry_ok data) p /\
  List.length p = k /\
  (forall i, (i < k)%nat ->
     fst (fst (nth i p (0, 0, 0))) = Z.of_nat (i + 1)) /\
  Forall (fun q => 0 <= snd (fst q) < 4 /\ 0 <= snd q < 3) p.
Proof.
  induction 1 as [m u|n m u m0 u0 p Hm0 Hu0 Hpar Hp IH]; intros Hm Hu Hk.
  - repeat split; try constructor. intros i Hi. lia.
  - destruct (IH Hm0 Hu0 ltac:(lia)) as (H1 & H2 & H3 & H4).
    split; [|split; [|split]].
    + apply Forall_app. split; [exact H1|]. constructor; [|constructor].
      unfold entry_ok, len. cbn [fst snd]. lia.
    + rewrite length_app. cbn [List.length]. lia.
    + intros i Hi. destruct (Nat.eq_dec i n) as [->|Hne].
      * rewrite app_nth2 by lia. rewrite H2, Nat.sub_diag. cbn [nth fst].
        lia.
      * rewrite app_nth1 by lia. apply H3. lia.
    + apply Forall_app. split; [exact H4|]. constructor; [|constructor].
      cbn [fst snd]. lia.
Qed.

Lemma linked_path_to self k m u :
  linked self -> (k <= 360)%nat -> (m < 4)%nat -> (u < 3)%nat ->
  (k = 0%nat \/ dpv self k m u <> INF) ->
  exists p, path_to self k m u p.
Proof.
  intros L. revert m u. induction k as [|k IH]; intros m u Hk Hm Hu Hreach.
  - exists []. constructor.
  - destruct Hreach as [?|Hreach]; [discriminate|].
    destruct (linked_parent self L k m u ltac:(lia) Hm Hu Hreach)
      as (m0 & u0 & Hm0 & Hu0 & Hpar & Hsrc).
    destruct (IH m0 u0 ltac:(lia) Hm0 Hu0) as [p Hp].
    + destruct k as [|k]; [left; reflexivity | right; apply Hsrc; lia].
    + exists (p ++ [(Z.of_nat (S k), Z.of_nat m, Z.of_nat u)]).
      exact (path_step self k m u m0 u0 p Hm0 Hu0 Hpar Hp).
Qed.

(** X14: on a fresh instance or one left by earlier calls, from a reached
    position [(k, mode, u)] (or any position of row 0),
    [_reconstruct_path] returns, given fuel for [k] iterations, a path of
    [k] entries whose [i]-th entry (from 0) lies in row [i + 1], every
    entry inside the tables. *)
Theorem reconstruct_path_visits_every_row fuel self k m u :
  linked self -> (k <= 360)%nat -> (m < 4)%nat -> (u < 3)%nat ->
  (k = 0%nat \/ dpv self k m u <> INF) -> (k <= fuel)%nat ->
  exists p,
    _reconstruct_path fuel self (Z.of_nat k, Z.of_nat m, Z.of_nat u)
      = Some (Ok p) /\
    List.length p = k /\
    (forall i, (i < k)%nat ->
       fst (fst (nth i p (0, 0, 0))) = Z.of_nat (i + 1)) /\
    Forall (fun q => 0 <= snd (fst q) < 4 /\ 0 <= snd q < 3) p.
Proof.
  intros L Hk Hm Hu Hreach Hfuel.
  destruct (linked_path_to self k m u L Hk Hm Hu Hreach) as [p Hp].
  exists p. split.
  - unfold _reconstruct_path.
    rewrite (reconstruct_path_to self k m u p (linked_parents _ L) Hp)
      by (auto; lia).
    cbn [rev]. rewrite app_nil_r. reflexivity.
  - destruct (path_to_entries self (repeat 0%N 360) k m u p Hp Hm Hu)
      as (_ & H2 & H3 & H4); [rewrite repeat_length; lia|].
    auto.
Qed.




Lemma get3_set3_cases {A} (d : A) (t : table A) n m u v n' m' u' :
  get3 d (set3 t n m u v) n' m' u' = get3 d t n' m' u' \/
  ((n, m, u) = (n', m', u') /\ get3 d (set3 t n m u v) n' m' u' = v).
Proof.
  unfold get3, set3. rewrite nth_update.
  destruct (Nat.eqb_spec n n') as [->|]; [|left; reflexivity].
  destruct (n' <? List.length t)%nat; [|left; reflexivity].
  rewrite nth_update.
  destruct (Nat.eqb_spec m m') as [->|]; [|left; reflexivity].
  destruct (m' <? List.length (nth n' t []))%nat; [|left; reflexivity].
  rewrite nth_update.
  destruct (Nat.eqb_spec u u') as [->|]; [|left; reflexivity].
  destruct (u' <? List.length (nth m' (nth n' t []) []))%nat;
    [right; split; reflexivity | left; reflexivity].
Qed.

Lemma transition_kanji v data n m u :
  snd (transition v data n m u 3) = 0%nat.
Proof.
  unfold transition, _compute_new_state_without_mode_changing,
    _compute_new_state_with_mode_changing.
  destruct (3 =? m)%nat; reflexivity.
Qed.

Lemma kept_refl k s : kept k s s.
Proof.
  split; [|split]; [intros; split; reflexivity | intros; lia | reflexivity].
Qed.

Lemma kept_relax v data k n m u nm s0 s :
  (n < k)%nat -> kept k s0 s -> kept k s0 (relax v data n m u s nm).
Proof.
  intros Hn (K1 & K2 & K3).
  destruct (relax_cases v data n m u s nm) as [[-> _]|(_ & Hlt & Ed & Ep)];
    [split; [|split]; assumption|].
  split; [|split].
  - intros n' m' u' Hn'. destruct (K1 n' m' u' Hn') as [<- <-].
    unfold dpv, parent_of. rewrite Ed, Ep.
    split; apply get3_set3_other; intros [=]; lia.
  - intros n' m' u' Hn'. specialize (K2 n' m' u' Hn').
    unfold dpv at 1. rewrite Ed.
    destruct (get3_set3_cases 0 (dp s) (n + 1) nm
                (snd (transition v data n m u nm))
                (dpv s n m u + fst (transition v data n m u nm)) n' m' u')
      as [->|[E ->]].
    + exact K2.
    + injection E as <- <- <-. lia.
  - rewrite <- K3. unfold parent_of. rewrite Ep.
    apply get3_set3_other. intros [= E1 E2 E3]. subst nm.
    rewrite transition_kanji in E3. discriminate.
Qed.

Lemma kept_base_case v k s0 s m :
  kept k s0 s -> kept k s0 (base_case v s m).
Proof.
  intros (K1 & K2 & K3). unfold base_case. split; [|split].
  - intros n' m' u' Hn'. destruct (K1 n' m' u' Hn') as [<- <-].
    unfold dpv, parent_of. cbn [dp parents].
    split; apply get3_set3_other; intros [=]; lia.
  - intros n' m' u' Hn'. specialize (K2 n' m' u' Hn').
    unfold dpv at 1. cbn [dp].
    rewrite get3_set3_other by (intros [=]; lia). exact K2.
  - rewrite <- K3. unfold parent_of. cbn [parents].
    apply get3_set3_other. intros [=].
Qed.

Lemma kept_compute_costs v data s :
  kept (List.length data) s (_compute_costs v data s).
Proof.
  unfold _compute_costs. cbv zeta.
  apply (fold_left_preserves (relax_row v data) (kept (List.length data) s)).
  - intros s1 n Hn K. apply in_seq in Hn. unfold relax_row.
    revert s1 K. apply fold_left_preserves. intros s1 m _.
    revert s1. apply fold_left_preserves. intros s1 u _ K.
    unfold relax_state.
    destruct (get3 0 (dp s1) n m u =? INF); [exact K|].
    revert s1 K. apply fold_left_preserves. intros s1 nm _ K.
    apply kept_relax; [lia | exact K].
  - apply fold_left_preserves; [|apply kept_refl].
    intros s1 m _. apply kept_base_case.
Qed.

(** X10: a call of [compute] on a fresh instance or one left by earlier
    calls changes the tables in the rows [0..len(data)] only, lowers or
    keeps every cost above row 0, and never writes [parents[360][3][2]],
    the cell that [parents[-1][-1][-1]] names. *)
Theorem compute_keeps_the_rest fuel self data version ecc self' r :
  linked self ->
  compute fuel self data version ecc = Some (self', r) ->
  (forall n mode u, (List.length data < n)%nat ->
     dpv self' n mode u = dpv self n mode u /\
     parent_of self' n mode u = parent_of self n mode u) /\
  (forall n mode u, (1 <= n)%nat -> dpv self' n mode u <= dpv self n mode u) /\
  parent_of self' 360 3 2 = parent_of self 360 3 2.
Proof.
  intros _ H. change (kept (List.length data) self self').
  revert H. unfold compute.
  destruct (len data >? MAX_CHARACTER); [intros [= <- _]; apply kept_refl|].
  destruct (rMQRVersions version) as [v|];
    [|intros [= <- _]; apply kept_refl].
  pose proof (kept_compute_costs v data self) as K.
  destruct (Best.cost _ >? number_of_data_bits v ecc);
    [intros [= <- _]; exact K|].
  destruct (_reconstruct_path _ _ _) as [[p| | |]|];
    try discriminate; intros [= <- _]; exact K.
Qed.

Lemma usable_init : usable __init__.
Proof.
  split; [apply linked_init|].
  unfold parent_of, __init__. cbn [parents].
  change (Z.to_nat (MAX_CHARACTER + 1)) with 361%nat.
  apply get3_repeat; lia.
Qed.

Lemma usable_compute_costs v data self :
  len data <= MAX_CHARACTER -> usable self ->
  usable (_compute_costs v data self).
Proof.
  intros Hlen [L U]. split; [apply linked_compute_costs; assumption|].
  destruct (kept_compute_costs v data self) as (_ & _ & ->). exact U.
Qed.

Lemma py_get3_last {A} (d : A) (t : table A) :
  shaped t -> py_get3 t (-1, -1, -1) = Some (get3 d t 360 3 2).
Proof.
  intros [Hl Hs]. destruct (Hs 360%nat ltac:(lia)) as [Hp Hr].
  specialize (Hr 3%nat ltac:(lia)).
  assert (P : forall {B} (e : B) (l : list B) (k : nat),
            List.length l = S k -> py_index l (-1) = Some (nth k l e)).
  { intros B e l k E. unfold py_index, len. rewrite E.
    destruct (Z.ltb_spec (-1) 0) as [_|?]; [|lia].
    destruct (Z.leb_spec (- -1) (Z.of_nat (S k))) as [_|?]; [|lia].
    replace (Z.to_nat (Z.of_nat (S k) + -1)) with k by lia.
    apply nth_error_nth'. lia. }
  unfold py_get3, get3.
  rewrite (P _ [] t 360%nat Hl), (P _ [] _ 3%nat Hp).
  apply (P _ d _ 2%nat Hr).
Qed.

Lemma sentinel_loops self :
  usable self ->
  forall fuel path, reconstruct_loop fuel self path (-1, -1, -1) = None.
Proof.
  intros [L U]. induction fuel as [|fuel IH]; intros path; [reflexivity|].
  cbn [reconstruct_loop fst negb Z.eqb].
  rewrite (py_get3_last ((0, 0, 0) : cell) _ (linked_parents _ L)).
  change (get3 ((0, 0, 0) : cell) (parents self) 360 3 2)
    with (parent_of self 360 3 2).
  rewrite U. apply IH.
Qed.

Lemma find_best_none self data :
  Best.index (_find_best self data) = (-1, -1, -1) <->
  (forall mode u, (mode < 4)%nat -> (u < 3)%nat ->
     INF <= dpv self (List.length data) mode u).
Proof.
  destruct (find_best_spec self data) as (_ & Hmin & Hbest).
  split.
  - intros E m u Hm Hu.
    destruct Hbest as [[Ec _]|(m0 & u0 & _ & _ & Ei & _)].
    + rewrite <- Ec. apply Hmin; assumption.
    + rewrite Ei in E. unfold len in E. injection E as E _ _. lia.
  - intros H.
    destruct Hbest as [[_ Ei]|(m0 & u0 & Hm & Hu & _ & Ed & Hlt & _)];
      [exact Ei|].
    specialize (H m0 u0 Hm Hu). lia.
Qed.

(** X12: for an input of at most 360 characters and a cost table of
    the shape [__init__] gives it, [_find_best] returns the index
    [(-1, -1, -1)] exactly when no cell of the row [len(data)] holds a
    cost below [INF]. *)
Theorem find_best_sentinel self data :
  shaped (dp self) ->
  len data <= MAX_CHARACTER ->
  (Best.index (_find_best self data) = (-1, -1, -1) <->
   (forall mode u, (mode < 4)%nat -> (u < 3)%nat ->
      INF <= dpv self (List.length data) mode u)).
Proof. intros _ _. exact (find_best_none self data). Qed.

(** X13: on an instance whose cell [parents[360][3][2]] still holds
    [(-1, -1, -1)], when the costs leave no cell of the last row below
    [INF] and the capacity is not below [INF], the loop of
    [_reconstruct_path] starts from [(-1, -1, -1)] and does not end:
    [compute] returns for no amount of fuel. *)
Theorem compute_loops_from_the_sentinel self data version ecc v :
  usable self ->
  rMQRVersions version = Some v ->
  len data <= MAX_CHARACTER ->
  (forall mode u, (mode < 4)%nat -> (u < 3)%nat ->
     INF <= dpv (_compute_costs v data self) (List.length data) mode u) ->
  INF <= number_of_data_bits v ecc ->
  forall fuel, compute fuel self data version ecc = None.
Proof.
  intros U Hv Hlen Hrow Hcap fuel.
  pose proof (usable_compute_costs v data self Hlen U) as U'.
  unfold compute.
  destruct (Z.gtb_spec (len data) MAX_CHARACTER) as [?|_]; [lia|].
  rewrite Hv.
  set (self' := _compute_costs v data self) in *.
  destruct (find_best_spec self' data) as (Hle & _ & _).
  pose proof (proj2 (find_best_none self' data) Hrow) as Ei.
  set (best := _find_best self' data) in *.
  destruct (Z.gtb_spec (Best.cost best) (number_of_data_bits v ecc))
    as [?|_]; [lia|].
  rewrite Ei. unfold _reconstruct_path.
  rewrite (sentinel_loops self' U'). reflexivity.
Qed.



(** X17: the error correction level enters [compute] through the
    capacity alone: when a call returns segments, the call with a level
    of at least that capacity returns the same segments and leaves the
    same tables. *)
Theorem more_capacity_same_segments fuel self data version ecc ecc' v
    self' segs :
  rMQRVersions version = Some v ->
  number_of_data_bits v ecc <= number_of_data_bits v ecc' ->
  compute fuel self data version ecc = Some (self', Ok segs) ->
  compute fuel self data version ecc' = Some (self', Ok segs).
Proof.
  intros Hv Hcap. unfold compute.
  destruct (len data >? MAX_CHARACTER); [discriminate|].
  rewrite Hv.
  set (s := _compute_costs v data self).
  set (best := _find_best s data).
  destruct (Z.gtb_spec (Best.cost best) (number_of_data_bits v ecc))
    as [?|Hle]; [discriminate|].
  destruct (Z.gtb_spec (Best.cost best) (number_of_data_bits v ecc'))
    as [?|_]; [lia|].
  trivial.
Qed.

(** X16: in Byte mode, staying in the mode costs in the DP what the
    character adds to [ByteEncoder.length] of the run, whatever the
    count-indicator width, and leaves the unfilled length 0. *)
Theorem byte_transition_follows_length (s : str) (c : char) w u :
  _compute_new_state_without_mode_changing [c] 2 u
    = (ByteEncoder.length (s ++ [c]) w - ByteEncoder.length s w, 0%nat).
Proof using.
  clear alphanumeric_symbol kanji_band.
  unfold _compute_new_state_without_mode_changing.
  change (encoder_at 2) with Byte. cbv zeta. unfold ByteEncoder.length, len.
  rewrite utf8_app, length_app. f_equal. lia.
Qed.

(** X15: in the tables that [_compute_costs] fills on a fresh instance,
    a reached cell of row [n + 1] records as its parent a cell of row [n]
    that costs no more than it. *)
Theorem costs_grow_along_parents v data n mode u :
  widths_ok v ->
  len data <= MAX_CHARACTER ->
  (n < List.length data)%nat -> (mode < 4)%nat -> (u < 3)%nat ->
  dpv (_compute_costs v data __init__) (n + 1) mode u <> INF ->
  exists mode0 u0,
    (mode0 < 4)%nat /\ (u0 < 3)%nat /\
    parent_of (_compute_costs v data __init__) (n + 1) mode u
      = (Z.of_nat n, Z.of_nat mode0, Z.of_nat u0) /\
    dpv (_compute_costs v data __init__) n mode0 u0
      <= dpv (_compute_costs v data __init__) (n + 1) mode u.
Proof.
  intros Hw Hlen Hn Hm Hu Hreach.
  pose proof (compute_costs_inv v data Hlen) as I.
  destruct (inv_parents _ _ _ _ _ I n mode u ltac:(lia) Hm Hu Hreach)
    as (m0 & u0 & Hm0 & Hu0 & Hpar & _ & _ & Htr).
  exists m0, u0. repeat (split; [assumption|]).
  pose proof (transition_cost_nonneg v data n m0 u0 mode Hw) as Hpos.
  rewrite Htr in Hpos. cbn [fst] in Hpos. lia.
Qed.

Lemma update_same {A} (d : A) (f : A -> A) (l : list A) : forall i,
  f (nth i l d) = nth i l d -> update i f l = l.
Proof.
  induction l as [|x r IH]; intros i H; [reflexivity|].
  destruct i as [|i]; cbn [update nth] in *; [rewrite H; reflexivity|].
  rewrite IH by exact H. reflexivity.
Qed.

Lemma set3_get3 {A} (d : A) (t : table A) n m u v :
  get3 d t n m u = v -> set3 t n m u v = t.
Proof.
  intros H. unfold set3, get3 in *.
  apply (update_same []). apply (update_same []). apply (update_same d).
  symmetry. exact H.
Qed.

Lemma relax_settled v data n m u nm s :
  edge_ok v data s n m u nm -> dpv s n m u <> INF ->
  relax v data n m u s nm = s.
Proof.
  intros He Hsrc.
  destruct (relax_cases v data n m u s nm) as [[E _]|(Hval & Hlt & _)];
    [exact E|].
  specialize (He Hval Hsrc). lia.
Qed.

Lemma base_case_root_parent v self m :
  shaped (parents self) -> (m < 4)%nat ->
  parent_of (fold_left (base_case v) (seq 0 (List.length encoders)) self)
    0 m 0
  = (0, 0, 0).
Proof.
  intros Sp Hm. cbn [List.length encoders seq fold_left]. unfold base_case.
  cbn [dp parents]. unfold parent_of. cbn [parents].
  assert (S1 := shaped_set3 (parents self) 0 0 0 (0, 0, 0) Sp).
  assert (S2 := shaped_set3 _ 0 1 0 (0, 0, 0) S1).
  assert (S3 := shaped_set3 _ 0 2 0 (0, 0, 0) S2).
  destruct m as [|[|[|[|m]]]]; try lia;
    rewrite ?get3_set3_other by discriminate;
    apply get3_set3_same; auto; lia.
Qed.

Lemma compute_costs_root_parent v data self m :
  shaped (parents self) -> (m < 4)%nat ->
  parent_of (_compute_costs v data self) 0 m 0 = (0, 0, 0).
Proof.
  intros Sp Hm. unfold _compute_costs. cbv zeta.
  pose (P := fun s : SegmentOptimizer => parent_of s 0 m 0 = (0, 0, 0)).
  apply (fold_left_preserves (relax_row v data) P);
    [|apply base_case_root_parent; assumption].
  intros s1 n _ K. unfold relax_row.
  apply (fold_left_preserves _ P); [|exact K]. clear s1 K.
  intros s1 m1 _ K.
  apply (fold_left_preserves _ P); [|exact K]. clear s1 K.
  intros s1 u1 _ K. unfold relax_state.
  destruct (get3 0 (dp s1) n m1 u1 =? INF); [exact K|].
  apply (fold_left_preserves _ P); [|exact K]. clear s1 K.
  intros s1 nm _ K.
  destruct (relax_cases v data n m1 u1 s1 nm) as [[-> _]|(_ & _ & _ & Ep)];
    [exact K|].
  unfold P, parent_of in *. rewrite Ep.
  rewrite get3_set3_other by (intros [=]; lia). exact K.
Qed.

Lemma compute_costs_settled v data s :
  row_inv v data (List.length data) (List.length data) s ->
  (forall m, (m < 4)%nat -> parent_of s 0 m 0 = (0, 0, 0)) ->
  _compute_costs v data s = s.
Proof.
  intros I Hroot. unfold _compute_costs. cbv zeta.
  assert (B : fold_left (base_case v) (seq 0 (List.length encoders)) s = s).
  { apply (fold_left_preserves (base_case v) (fun s' => s' = s));
      [|reflexivity].
    intros s1 m Hm ->. apply in_seq in Hm. cbn [List.length encoders] in Hm.
    pose proof (inv_root _ _ _ _ _ I m ltac:(lia)) as Hd.
    pose proof (Hroot m ltac:(lia)) as Hp.
    unfold base_case. destruct s as [d p]. unfold dpv, parent_of in *.
    cbn [dp parents] in *. f_equal; eapply set3_get3; eassumption. }
  rewrite B.
  apply (fold_left_preserves (relax_row v data) (fun s' => s' = s));
    [|reflexivity].
  intros s1 n Hn ->. apply in_seq in Hn. unfold relax_row.
  apply (fold_left_preserves _ (fun s' => s' = s)); [|reflexivity].
  intros s1 m Hm ->. apply in_seq in Hm.
  apply (fold_left_preserves _ (fun s' => s' = s)); [|reflexivity].
  intros s1 u Hu ->. apply in_seq in Hu. unfold relax_state.
  fold (dpv s n m u).
  destruct (Z.eqb_spec (dpv s n m u) INF) as [_|Hsrc]; [reflexivity|].
  apply (fold_left_preserves _ (fun s' => s' = s)); [|reflexivity].
  intros s1 nm Hnm ->. apply in_seq in Hnm.
  apply relax_settled; [|exact Hsrc].
  apply (inv_edges _ _ _ _ _ I); lia.
Qed.

(** X19: a call of [compute] on a fresh instance, made a second time on
    the instance it leaves and with the same arguments, returns the same
    result and leaves the tables as they are. *)
Theorem repeated_call_same_result fuel data version ecc self r :
  compute fuel __init__ data version ecc = Some (self, r) ->
  compute fuel self data version ecc = Some (self, r).
Proof.
  intros H. unfold compute in *.
  destruct (Z.gtb_spec (len data) MAX_CHARACTER) as [_|Hlen];
    [injection H as <- <-; reflexivity|].
  destruct (rMQRVersions version) as [v|];
    [|injection H as <- <-; reflexivity].
  assert (Hs : self = _compute_costs v data __init__).
  { revert H.
    destruct (Best.cost _ >? number_of_data_bits v ecc);
      [intros [= <- _]; reflexivity|].
    destruct (_reconstruct_path _ _ _) as [[p| | |]|];
      try discriminate; intros [= <- _]; reflexivity. }
  subst self.
  rewrite (compute_costs_settled v data (_compute_costs v data __init__)
             (compute_costs_inv v data Hlen)).
  - exact H.
  - intros m Hm. apply compute_costs_root_parent; [|exact Hm].
    apply (linked_parents _ linked_init).
Qed.

Lemma run_cost_snoc mode cs c u :
  run_cost mode (cs ++ [c]) u
  = (fst (run_cost mode cs u)
     + fst (_compute_new_state_without_mode_changing c mode
              (snd (run_cost mode cs u))),
     snd (_compute_new_state_without_mode_changing c mode
            (snd (run_cost mode cs u)))).
Proof. unfold run_cost. rewrite fold_left_app. reflexivity. Qed.

(** X20: the cost and the unfilled length of a run of [k] characters
    that stays in one mode, from the unfilled length 0: Numeric takes
    10 bits for every three characters and 4 or 7 for one or two left
    over, Alphanumeric 11 bits for every two and 6 for one left over,
    Byte 8 bits for every UTF-8 byte, Kanji 13 bits a character; the
    unfilled length is [k % 3], [k % 2], 0 and 0. *)
Theorem same_mode_run_costs (characters : list str) :
  let k := List.length characters in
  run_cost 0 characters 0
    = (10 * Z.of_nat (k / 3)
       + (if (k mod 3 =? 0)%nat then 0
          else if (k mod 3 =? 1)%nat then 4 else 7),
       (k mod 3)%nat) /\
  run_cost 1 characters 0
    = (11 * Z.of_nat (k / 2) + (if (k mod 2 =? 0)%nat then 0 else 6),
       (k mod 2)%nat) /\
  run_cost 2 characters 0
    = (8 * len (utf8 (List.concat characters)), 0%nat) /\
  run_cost 3 characters 0 = (13 * Z.of_nat k, 0%nat).
Proof.
  induction characters as [|c cs IH] using rev_ind;
    [repeat split; reflexivity|].
  cbv zeta in *. destruct IH as (IH0 & IH1 & IH2 & IH3).
  rewrite !run_cost_snoc, IH0, IH1, IH2, IH3, length_app, concat_app.
  cbn [List.length List.concat fst snd].
  unfold _compute_new_state_without_mode_changing.
  change (encoder_at 0) with Numeric. change (encoder_at 1) with Alphanumeric.
  change (encoder_at 2) with Byte. change (encoder_at 3) with Kanji.
  cbv zeta. cbn [fst snd].
  rewrite app_nil_r, utf8_app, len_app.
  set (k := List.length cs).
  split; [|split; [|split]].
  - f_equal; [|lia].
    destruct (Nat.eqb_spec (k mod 3) 0); destruct (Nat.eqb_spec (k mod 3) 1);
      destruct (Nat.eqb_spec ((k + 1) mod 3) 0);
      destruct (Nat.eqb_spec ((k + 1) mod 3) 1); lia.
  - f_equal; [|lia].
    destruct (Nat.eqb_spec (k mod 2) 0);
      destruct (Nat.eqb_spec ((k + 1) mod 2) 0); lia.
  - f_equal. lia.
  - f_equal. lia.
Qed.

Lemma fold_left_sim {S X} (f : S -> X -> S) (R : S -> S -> Prop)
    (l : list X) :
  (forall a b x, In x l -> R a b -> R (f a x) (f b x)) ->
  forall a b, R a b -> R (fold_left f l a) (fold_left f l b).
Proof.
  induction l as [|y l IH]; intros H a b Hab; [exact Hab|].
  simpl. apply IH.
  - intros a0 b0 x Hx. apply H. right. exact Hx.
  - apply H; [left; reflexivity | exact Hab].
Qed.

Lemma relax_shaped v data n m u nm s :
  shaped (dp s) -> shaped (dp (relax v data n m u s nm)).
Proof.
  intros Sd.
  destruct (relax_cases v data n m u s nm) as [[-> _]|(_ & _ & -> & _)];
    [exact Sd | apply shaped_set3; exact Sd].
Qed.

Lemma relax_row0 v data n m u nm s m' u' :
  dpv (relax v data n m u s nm) 0 m' u' = dpv s 0 m' u'.
Proof.
  destruct (relax_cases v data n m u s nm) as [[-> _]|(_ & _ & Ed & _)];
    [reflexivity|].
  unfold dpv. rewrite Ed. apply get3_set3_other. intros [=]. lia.
Qed.

Lemma relax_cell v data n m u nm s n' m' u' :
  shaped (dp s) -> (n < 360)%nat -> (nm < 4)%nat ->
  let tr := transition v data n m u nm in
  let valid :=
    encoder_is_valid_characters (encoder_at nm) (char_at data n) in
  (dpv (relax v data n m u s nm) n' m' u' = dpv s n' m' u' /\
   ((n + 1, nm, snd tr)%nat = (n', m', u') -> valid = true ->
    dpv s n' m' u' <= dpv s n m u + fst tr))
  \/
  ((n + 1, nm, snd tr)%nat = (n', m', u') /\ valid = true /\
   dpv (relax v data n m u s nm) n' m' u' = dpv s n m u + fst tr /\
   dpv s n m u + fst tr < dpv s n' m' u').
Proof.
  intros Sd Hn Hnm. cbv zeta.
  pose proof (transition_phase v data n m u nm) as Hl.
  destruct (relax_cases v data n m u s nm) as [[-> H]|(Hv & Hlt & Ed & _)];
    set (tr := transition v data n m u nm) in *.
  - left. split; [reflexivity|]. intros [= <- <- <-]. exact H.
  - destruct (Nat.eq_dec (n + 1) n') as [<-|N1];
      [destruct (Nat.eq_dec nm m') as [<-|N2];
       [destruct (Nat.eq_dec (snd tr) u') as [<-|N3]|]|].
    + right. split; [reflexivity|]. split; [exact Hv|]. split; [|exact Hlt].
      unfold dpv at 1. rewrite Ed. apply get3_set3_same; auto; lia.
    + left. split; [|intros [=]; congruence].
      unfold dpv at 1. rewrite Ed. apply get3_set3_other. congruence.
    + left. split; [|intros [=]; congruence].
      unfold dpv at 1. rewrite Ed. apply get3_set3_other. congruence.
    + left. split; [|intros [=]; congruence].
      unfold dpv at 1. rewrite Ed. apply get3_set3_other. congruence.
Qed.

Lemma below_relax v data n m u nm a b :
  (n < 360)%nat -> (nm < 4)%nat -> below a b ->
  dpv a n m u <= dpv b n m u ->
  below (relax v data n m u a nm) (relax v data n m u b nm).
Proof.
  intros Hn Hnm (Sa & Sb & B1 & B2) Hs.
  split; [apply relax_shaped; exact Sa|].
  split; [apply relax_shaped; exact Sb|].
  split.
  - intros n' m' u' Hn' Hm' Hu'.
    destruct (B1 n' m' u' Hn' Hm' Hu') as [Hab HbI].
    destruct (relax_cell v data n m u nm a n' m' u' Sa Hn Hnm)
      as [[-> Ha]|(Ea & Hva & -> & Ha)];
      destruct (relax_cell v data n m u nm b n' m' u' Sb Hn Hnm)
        as [[-> Hb]|(Eb & Hvb & -> & Hb)].
    + split; assumption.
    + specialize (Ha Eb Hvb). lia.
    + lia.
    + lia.
  - intros m' u' Hm' Hu'. rewrite !relax_row0. apply B2; assumption.
Qed.

Lemma below_relax_left v data n m u nm a b :
  (n < 360)%nat -> (nm < 4)%nat -> below a b ->
  below (relax v data n m u a nm) b.
Proof.
  intros Hn Hnm (Sa & Sb & B1 & B2).
  split; [apply relax_shaped; exact Sa|]. split; [exact Sb|]. split.
  - intros n' m' u' Hn' Hm' Hu'.
    destruct (B1 n' m' u' Hn' Hm' Hu') as [Hab HbI].
    destruct (relax_cell v data n m u nm a n' m' u' Sa Hn Hnm)
      as [[-> _]|(_ & _ & -> & Ha)]; lia.
  - intros m' u' Hm' Hu'. rewrite relax_row0. apply B2; assumption.
Qed.

Lemma below_relax_state v data n m a b u :
  (n < 360)%nat -> (m < 4)%nat -> (u < 3)%nat -> below a b ->
  below (relax_state v data n m a u) (relax_state v data n m b u).
Proof.
  intros Hn Hm Hu B. unfold relax_state.
  fold (dpv a n m u). fold (dpv b n m u).
  destruct (Z.eqb_spec (dpv b n m u) INF) as [Eb|Nb].
  - destruct (Z.eqb_spec (dpv a n m u) INF) as [_|_]; [exact B|].
    apply (fold_left_preserves _ (fun a' => below a' b)); [|exact B].
    intros a' nm Hnm B'. apply in_seq in Hnm.
    apply below_relax_left; [lia | lia | exact B'].
  - assert (Hs : dpv a n m u <= dpv b n m u /\ dpv a n m u <> INF).
    { destruct B as (_ & _ & B1 & B2). destruct n as [|n].
      - destruct (B2 m u Hm Hu) as [E|E]; [lia | contradiction].
      - destruct (B1 (S n) m u ltac:(lia) Hm Hu). lia. }
    destruct Hs as [Hs Na].
    destruct (Z.eqb_spec (dpv a n m u) INF) as [?|_]; [contradiction|].
    apply (fold_left_sim (relax v data n m u)
             (fun a' b' => below a' b' /\ dpv a' n m u <= dpv b' n m u));
      [|split; assumption].
    intros a' b' nm Hnm [B' Hs']. apply in_seq in Hnm. split.
    + apply below_relax; [lia | lia | exact B' | exact Hs'].
    + rewrite !relax_same_row. exact Hs'.
Qed.

Lemma below_compute_costs v data self :
  linked self -> len data <= MAX_CHARACTER ->
  below (_compute_costs v data self) (_compute_costs v data __init__).
Proof.
  intros L Hlen. unfold _compute_costs. cbv zeta.
  assert (HL : (List.length data <= 360)%nat)
    by (unfold len, MAX_CHARACTER in Hlen; lia).
  apply (fold_left_sim (relax_row v data) below).
  - intros a b n Hn B. apply in_seq in Hn. unfold relax_row.
    apply (fold_left_sim _ below); [|exact B].
    intros a1 b1 m Hm B1. apply in_seq in Hm.
    apply (fold_left_sim _ below); [|exact B1].
    intros a2 b2 u Hu B2. apply in_seq in Hu.
    apply below_relax_state; [lia | lia | lia | exact B2].
  - assert (K : forall s,
              kept 0 s (fold_left (base_case v)
                          (seq 0 (List.length encoders)) s)).
    { intros s. apply (fold_left_preserves (base_case v) (kept 0 s));
        [|apply kept_refl].
      intros s1 m _. apply kept_base_case. }
    assert (Lf : forall s, linked s ->
              linked (fold_left (base_case v)
                        (seq 0 (List.length encoders)) s)).
    { intros s. apply fold_left_preserves. intros s1 m _.
      apply linked_base_case. }
    pose proof (base_case_inv v data) as I.
    split; [apply (linked_dp _ (Lf self L))|].
    split; [apply (linked_dp _ (Lf __init__ linked_init))|].
    split.
    + intros n m u Hn Hm Hu.
      destruct (K self) as (Ka & _). destruct (K __init__) as (Kb & _).
      destruct (Ka n m u ltac:(lia)) as [-> _].
      destruct (Kb n m u ltac:(lia)) as [-> _].
      pose proof (linked_bound _ L n m u Hn Hm Hu).
      assert (E : dpv __init__ n m u = INF).
      { unfold dpv, __init__. cbn [dp].
        change (Z.to_nat (MAX_CHARACTER + 1)) with 361%nat.
        apply get3_repeat; lia. }
      rewrite E. lia.
    + intros m u Hm Hu. destruct u as [|u].
      * left.
        rewrite (base_case_root v self m (linked_dp _ L) Hm).
        rewrite (base_case_root v __init__ m (linked_dp _ linked_init) Hm).
        reflexivity.
      * right. apply (inv_root_inf _ _ _ _ _ I); lia.
Qed.

(** X11: an instance left by earlier calls never finds a higher cost
    than a fresh one: for a non-empty input of at most 360 characters,
    the cost that [_find_best] returns after [_compute_costs] on it is at
    most the cost on a fresh instance. *)
Theorem reuse_never_costs_more v data self :
  linked self ->
  data <> [] ->
  len data <= MAX_CHARACTER ->
  Best.cost (_find_best (_compute_costs v data self) data)
  <= Best.cost (_find_best (_compute_costs v data __init__) data).
Proof.
  intros L Hne Hlen.
  destruct (below_compute_costs v data self L Hlen) as (_ & _ & B1 & _).
  assert (HL : (1 <= List.length data <= 360)%nat).
  { unfold len, MAX_CHARACTER in Hlen.
    destruct data; [congruence | cbn [List.length]; cbn [List.length] in Hlen;
                                 lia]. }
  destruct (find_best_spec (_compute_costs v data self) data)
    as (Hle & Hmin & _).
  destruct (find_best_spec (_compute_costs v data __init__) data)
    as (_ & _ & [[-> _]|(m & u & Hm & Hu & _ & <- & _)]).
  - exact Hle.
  - specialize (Hmin m u Hm Hu).
    destruct (B1 (List.length data) m u HL Hm Hu). lia.
Qed.

End Optimizer.

(** ** The Byte encoder *)

Lemma string_length_append (a b : string) :
  String.length (a ++ b) = (String.length a + String.length b)%nat.
Proof. induction a as [|c a IH]; simpl; [reflexivity | rewrite IH; reflexivity]. Qed.

Lemma zeros_length k : String.length (zeros k) = k.
Proof. induction k as [|k IH]; simpl; [reflexivity | rewrite IH; reflexivity]. Qed.

Lemma zfill_length s w :
  Z.of_nat (String.length s) <= w ->
  Z.of_nat (String.length (zfill s w)) = w.
Proof.
  intros H. unfold zfill. rewrite string_length_append, zeros_length. lia.
Qed.

Lemma bin_pos_length p : forall k : nat,
  Z.pos p < 2 ^ Z.of_nat k -> (String.length (bin_pos p) <= k)%nat.
Proof.
  induction p as [q IH|q IH|]; intros k H; cbn [bin_pos];
    rewrite ?string_length_append; cbn [String.length];
    (destruct k as [|k]; [simpl in H; lia|]);
    rewrite Nat2Z.inj_succ, Z.pow_succ_r in H by lia.
  - specialize (IH k ltac:(lia)). lia.
  - specialize (IH k ltac:(lia)). lia.
  - lia.
Qed.

Lemma bin_length (n : N) (k : nat) :
  (1 <= k)%nat -> Z.of_N n < 2 ^ Z.of_nat k ->
  (String.length (bin n) <= k)%nat.
Proof.
  intros Hk H. destruct n as [|p]; [simpl; lia|].
  apply bin_pos_length. exact H.
Qed.

Lemma utf8_char_bytes c :
  scalar c -> Forall (fun b => (b < 256)%N) (utf8_char c).
Proof.
  intros [_ Hmax]. unfold utf8_char.
  destruct (N.ltb_spec c 128); [repeat constructor; lia|].
  destruct (N.ltb_spec c 2048); [repeat constructor; lia|].
  destruct (N.ltb_spec c 65536); repeat constructor; lia.
Qed.

Lemma utf8_bytes data :
  Forall scalar data -> Forall (fun b => (b < 256)%N) (utf8 data).
Proof.
  induction 1 as [|c data Hc _ IH]; [constructor|].
  change (utf8 (c :: data)) with (utf8_char c ++ utf8 data).
  apply Forall_app. split; [apply utf8_char_bytes; exact Hc | exact IH].
Qed.

Lemma encoded_bits_length bytes : forall acc,
  Forall (fun b => (b < 256)%N) bytes ->
  String.length
    (fold_left (fun res byte => (res ++ zfill (bin byte) 8)%string) bytes acc)
  = (String.length acc + 8 * List.length bytes)%nat.
Proof.
  induction bytes as [|b bytes IH]; intros acc H; [simpl; lia|].
  apply Forall_cons_iff in H as [Hb H]. cbn [fold_left List.length].
  rewrite IH by exact H. rewrite string_length_append.
  pose proof (bin_length b 8 ltac:(lia) ltac:(simpl; lia)) as Hlen.
  pose proof (zfill_length (bin b) 8 ltac:(lia)). lia.
Qed.

(** C7 (as amended): for every string of Unicode scalar values and every
    count-indicator width [w >= 1] in which the character count fits
    ([len(data) < 2 ** w]), [ByteEncoder.length(data, w)] is the number of
    characters of [ByteEncoder.encode(data, w)]. *)
Theorem byte_length_is_encode_length data w :
  Forall scalar data -> 0 < w -> len data < 2 ^ w ->
  Z.of_nat (String.length (ByteEncoder.encode data w))
  = ByteEncoder.length data w.
Proof.
  intros Hs Hw Hfit. unfold ByteEncoder.encode, ByteEncoder.length.
  cbv zeta. rewrite !string_length_append. unfold ByteEncoder._encoded_bits.
  rewrite encoded_bits_length by (apply utf8_bytes; exact Hs).
  assert (Hbin : Z.of_nat (String.length (bin (N.of_nat (List.length data))))
                 <= w).
  { pose proof (bin_length (N.of_nat (List.length data)) (Z.to_nat w)
                  ltac:(lia)) as H.
    rewrite Z2Nat.id in H by lia. unfold len in Hfit.
    specialize (H ltac:(lia)). lia. }
  pose proof (zfill_length _ w Hbin) as Hz.
  rewrite !Nat2Z.inj_add, Hz. unfold len. cbn [String.length]. lia.
Qed.

Lemma zfill_length_max s w :
  Z.of_nat (String.length (zfill s w)) = Z.max w (Z.of_nat (String.length s)).
Proof.
  unfold zfill. rewrite string_length_append, zeros_length. lia.
Qed.

Lemma encode_length_max data w :
  Forall scalar data ->
  Z.of_nat (String.length (ByteEncoder.encode data w))
  = 3 + Z.max w (Z.of_nat (String.length (bin (N.of_nat (List.length data)))))
    + 8 * len (utf8 data).
Proof.
  intros Hs. unfold ByteEncoder.encode. cbv zeta.
  rewrite !string_length_append. unfold ByteEncoder._encoded_bits.
  rewrite encoded_bits_length by (apply utf8_bytes; exact Hs).
  rewrite !Nat2Z.inj_add, zfill_length_max. unfold len.
  cbn [String.length ByteEncoder.mode_indicator]. lia.
Qed.

(** X1: for a string of Unicode scalar values and any width [w], the
    output of [ByteEncoder.encode] has 3 bits of mode indicator, a count
    field as wide as the larger of [w] and the number of binary digits of
    [len(data)], and 8 bits for each UTF-8 byte. *)
Theorem byte_encode_length data w :
  Forall scalar data ->
  Z.of_nat (String.length (ByteEncoder.encode data w))
  = 3 + Z.max w (Z.of_nat (String.length (bin (N.of_nat (List.length data)))))
    + 8 * len (utf8 data).
Proof. exact (encode_length_max data w). Qed.

(** X2: [ByteEncoder.length] never exceeds the number of bits of
    [ByteEncoder.encode], and the two are equal exactly when the binary
    digits of [len(data)] fit the width. *)
Theorem byte_length_bounds_encode data w :
  Forall scalar data ->
  ByteEncoder.length data w
    <= Z.of_nat (String.length (ByteEncoder.encode data w)) /\
  (ByteEncoder.length data w
     = Z.of_nat (String.length (ByteEncoder.encode data w))
   <-> Z.of_nat (String.length (bin (N.of_nat (List.length data)))) <= w).
Proof.
  intros Hs. rewrite (encode_length_max data w Hs).
  unfold ByteEncoder.length. cbn [String.length ByteEncoder.mode_indicator].
  lia.
Qed.

Lemma binaryb_app a b : binaryb (a ++ b) = binaryb a && binaryb b.
Proof.
  induction a as [|c a IH]; [reflexivity|]. cbn [append binaryb].
  rewrite IH, andb_assoc. reflexivity.
Qed.

Lemma binaryb_zeros k : binaryb (zeros k) = true.
Proof. induction k as [|k IH]; [reflexivity | exact IH]. Qed.

Lemma binaryb_bin n : binaryb (bin n) = true.
Proof.
  destruct n as [|p]; [reflexivity|]. cbn [bin].
  induction p as [q IH|q IH|]; cbn [bin_pos]; rewrite ?binaryb_app, ?IH;
    reflexivity.
Qed.

Lemma binaryb_zfill n w : binaryb (zfill (bin n) w) = true.
Proof.
  unfold zfill. rewrite binaryb_app, binaryb_zeros, binaryb_bin. reflexivity.
Qed.

(** X3: the output of [ByteEncoder.encode] is a bit string: it holds no
    character but '0' and '1', whatever the data and the width. *)
Theorem byte_encode_is_binary data w :
  binaryb (ByteEncoder.encode data w) = true.
Proof.
  unfold ByteEncoder.encode, ByteEncoder._encoded_bits. cbv zeta.
  rewrite !binaryb_app, binaryb_zfill. cbn [binaryb ByteEncoder.mode_indicator].
  cbn [Ascii.eqb Bool.eqb orb andb].
  assert (H : forall l acc, binaryb acc = true ->
            binaryb (fold_left
                       (fun res byte => (res ++ zfill (bin byte) 8)%string)
                       l acc) = true).
  { induction l as [|b l IH]; intros acc Hacc; [exact Hacc|].
    cbn [fold_left]. apply IH.
    rewrite binaryb_app, Hacc, binaryb_zfill. reflexivity. }
  apply H. reflexivity.
Qed.

Lemma bits_value_app a b acc :
  bits_value acc (a ++ b) = bits_value (bits_value acc a) b.
Proof.
  revert acc. induction a as [|c a IH]; intros acc; [reflexivity|].
  cbn [append bits_value]. apply IH.
Qed.

Lemma bits_value_zeros k : bits_value 0 (zeros k) = 0%N.
Proof. induction k as [|k IH]; [reflexivity | exact IH]. Qed.

Lemma bits_value_bin n : bits_value 0 (bin n) = n.
Proof.
  destruct n as [|p]; [reflexivity|]. cbn [bin].
  induction p as [q IH|q IH|]; cbn [bin_pos]; rewrite ?bits_value_app, ?IH;
    cbn [bits_value]; reflexivity.
Qed.

Lemma bits_value_zfill n w : bits_value 0 (zfill (bin n) w) = n.
Proof.
  unfold zfill. rewrite bits_value_app, bits_value_zeros. apply bits_value_bin.
Qed.

Lemma string_app_assoc (a b c : string) :
  ((a ++ b) ++ c = a ++ (b ++ c))%string.
Proof.
  induction a as [|x a IH]; [reflexivity|]. cbn [append]. rewrite IH.
  reflexivity.
Qed.

Lemma string_app_inj (a a' b b' : string) :
  String.length a = String.length a' ->
  (a ++ b = a' ++ b')%string -> a = a' /\ b = b'.
Proof.
  revert a'. induction a as [|x a IH]; intros [|x' a'] Hl H;
    try discriminate; [split; [reflexivity | exact H]|].
  cbn [append] in H. injection H as -> H. injection Hl as Hl.
  destruct (IH a' Hl H) as [-> ->]. split; reflexivity.
Qed.

Lemma encoded_bits_cons b l :
  fold_left (fun res byte => (res ++ zfill (bin byte) 8)%string)
    (b :: l) EmptyString
  = (zfill (bin b) 8
     ++ fold_left (fun res byte => (res ++ zfill (bin byte) 8)%string)
          l EmptyString)%string.
Proof.
  cbn [fold_left append].
  generalize (zfill (bin b) 8) as acc. induction l as [|x l IH]; intros acc.
  - cbn [fold_left]. clear. induction acc as [|c acc IH]; [reflexivity|].
    cbn [append]. rewrite <- IH. reflexivity.
  - cbn [fold_left append]. rewrite IH, (IH (zfill (bin x) 8)).
    apply string_app_assoc.
Qed.

Lemma byte_field_length b :
  (b < 256)%N -> String.length (zfill (bin b) 8) = 8%nat.
Proof.
  intros Hb. pose proof (bin_length b 8 ltac:(lia) ltac:(simpl; lia)).
  pose proof (zfill_length (bin b) 8 ltac:(lia)). lia.
Qed.

Lemma encoded_bits_inj l : forall l',
  Forall (fun b => (b < 256)%N) l -> Forall (fun b => (b < 256)%N) l' ->
  fold_left (fun res byte => (res ++ zfill (bin byte) 8)%string) l EmptyString
  = fold_left (fun res byte => (res ++ zfill (bin byte) 8)%string)
      l' EmptyString ->
  l = l'.
Proof.
  induction l as [|b l IH]; intros [|b' l'] Hl Hl' H.
  - reflexivity.
  - apply (f_equal String.length) in H.
    rewrite !encoded_bits_length in H by assumption. simpl in H. lia.
  - apply (f_equal String.length) in H.
    rewrite !encoded_bits_length in H by assumption. simpl in H. lia.
  - apply Forall_cons_iff in Hl as [Hb Hl].
    apply Forall_cons_iff in Hl' as [Hb' Hl'].
    rewrite !encoded_bits_cons in H.
    apply string_app_inj in H as [H1 H2];
      [|rewrite !byte_field_length by assumption; reflexivity].
    apply (f_equal (bits_value 0)) in H1. rewrite !bits_value_zfill in H1.
    subst b'. f_equal. apply IH; assumption.
Qed.

Lemma cons_inj {A} (a b : A) (l l' : list A) :
  a :: l = b :: l' -> a = b /\ l = l'.
Proof. intros E. injection E as E1 E2. split; assumption. Qed.

Lemma utf8_char_inj c c' r r' :
  utf8_char c ++ r = utf8_char c' ++ r' -> c = c' /\ r = r'.
Proof.
  unfold utf8_char.
  destruct (N.ltb_spec c 128);
    [|destruct (N.ltb_spec c 2048); [|destruct (N.ltb_spec c 65536)]];
    (destruct (N.ltb_spec c' 128);
     [|destruct (N.ltb_spec c' 2048); [|destruct (N.ltb_spec c' 65536)]]);
    cbn [app]; intros E;
    repeat match goal with
           | H : _ :: _ = _ :: _ |- _ => apply cons_inj in H; destruct H
           end;
    (split; [lia | first [assumption | exfalso; lia]]).
Qed.

Lemma utf8_inj a : forall b, utf8 a = utf8 b -> a = b.
Proof.
  assert (Hne : forall c s, utf8 (c :: s) <> []).
  { intros c s. change (utf8 (c :: s)) with (utf8_char c ++ utf8 s).
    unfold utf8_char.
    destruct (c <? 128)%N; [discriminate|].
    destruct (c <? 2048)%N; [discriminate|].
    destruct (c <? 65536)%N; discriminate. }
  induction a as [|c a IH]; intros [|c' b] H.
  - reflexivity.
  - symmetry in H. apply Hne in H. contradiction.
  - apply Hne in H. contradiction.
  - change (utf8_char c ++ utf8 a = utf8_char c' ++ utf8 b) in H.
    apply utf8_char_inj in H as [-> H]. f_equal. apply IH. exact H.
Qed.

(** X4: the payload bits determine the text: two strings of Unicode
    scalar values to which [ByteEncoder._encoded_bits] gives the same bits
    are equal. *)
Theorem byte_encoded_bits_injective a b :
  Forall scalar a -> Forall scalar b ->
  ByteEncoder._encoded_bits a = ByteEncoder._encoded_bits b -> a = b.
Proof.
  intros Ha Hb H. apply utf8_inj.
  apply encoded_bits_inj; [apply utf8_bytes; exact Ha
                          | apply utf8_bytes; exact Hb | exact H].
Qed.

Lemma substring_skip (a r : string) n :
  substring (String.length a) n (a ++ r) = substring 0 n r.
Proof. induction a as [|c a IH]; [reflexivity | exact IH]. Qed.

Lemma substring_prefix (b c : string) :
  substring 0 (String.length b) (b ++ c) = b.
Proof.
  induction b as [|x b IH]; [destruct c; reflexivity|].
  cbn [String.length append substring]. rewrite IH. reflexivity.
Qed.

(** X21: when the binary digits of [len(data)] fit the count indicator,
    the [w] bits that follow the three mode bits in the output of
    [ByteEncoder.encode] read back as [len(data)]. *)
Theorem byte_encode_count_reads_back data w :
  Z.of_nat (String.length (bin (N.of_nat (List.length data)))) <= w ->
  bits_value 0 (substring 3 (Z.to_nat w) (ByteEncoder.encode data w))
  = N.of_nat (List.length data).
Proof.
  intros Hw. unfold ByteEncoder.encode, ByteEncoder.mode_indicator.
  cbv zeta. rewrite string_app_assoc.
  change 3%nat with (String.length "011").
  rewrite substring_skip.
  pose proof (zfill_length_max (bin (N.of_nat (List.length data))) w) as Hl.
  replace (Z.to_nat w)
    with (String.length (zfill (bin (N.of_nat (List.length data))) w))
    by lia.
  rewrite substring_prefix. apply bits_value_zfill.
Qed.

(** ** The statements on the sample configuration *)

Lemma sample_widths_ok : widths_ok sample_level sample_version.
Proof. unfold widths_ok, encoders. repeat constructor; vm_compute; congruence. Qed.


Lemma empty_input_costs_a_header :
  compute sample_symbol sample_band sample_level sample_versions
    0 __init__ [] "R7x43" level_M
  = Some (_compute_costs sample_symbol sample_band sample_level
            sample_version [] __init__, Ok []) /\
  Best.cost (_find_best
               (_compute_costs sample_symbol sample_band sample_level
                  sample_version [] __init__) [])
    <= number_of_data_bits sample_version level_M /\
  compute_length sample_level sample_versions [] "R7x43"
  <> Ok (Best.cost (_find_best
                      (_compute_costs sample_symbol sample_band sample_level
                         sample_version [] __init__) [])).
Proof.
  split; [vm_compute; reflexivity|].
  split; vm_compute; discriminate.
Qed.

Lemma compute_returns_minimum_sample :
  exists segs,
    compute sample_symbol sample_band sample_level sample_versions
      5 __init__ (text "AB123") "R7x43" level_M
    = Some (_compute_costs sample_symbol sample_band sample_level
              sample_version (text "AB123") __init__, Ok segs) /\
    partition_of sample_symbol sample_band (text "AB123") segs /\
    compute_length sample_level sample_versions segs "R7x43"
    = Ok (Best.cost (_find_best
                       (_compute_costs sample_symbol sample_band sample_level
                          sample_version (text "AB123") __init__)
                       (text "AB123"))) /\
    forall P, partition_of sample_symbol sample_band (text "AB123") P ->
      exists c, compute_length sample_level sample_versions P "R7x43" = Ok c /\
        Best.cost (_find_best
                     (_compute_costs sample_symbol sample_band sample_level
                        sample_version (text "AB123") __init__)
                     (text "AB123")) <= c.
Proof.
  apply (compute_returns_minimum sample_symbol sample_band sample_level
           sample_versions 5 (text "AB123") "R7x43" level_M sample_version).
  - reflexivity.
  - exact sample_widths_ok.
  - reflexivity.
  - scalar_text.
  - discriminate.
  - vm_compute. discriminate.
  - vm_compute. discriminate.
  - simpl. lia.
Defined.

Lemma segments_concatenate_to_input_sample :
  exists segs,
    compute sample_symbol sample_band sample_level sample_versions
      3 __init__ (text "12a") "R7x43" level_M
    = Some (_compute_costs sample_symbol sample_band sample_level
              sample_version (text "12a") __init__, Ok segs) /\
    List.concat (map Segment.data segs) = text "12a".
Proof.
  apply (segments_concatenate_to_input sample_symbol sample_band sample_level
           sample_versions 3 __init__ (text "12a") "R7x43" level_M sample_version).
  - exact linked_init.
  - reflexivity.
  - reflexivity.
  - scalar_text.
  - vm_compute. discriminate.
  - vm_compute. discriminate.
  - simpl. lia.
Defined.


Lemma ties_keep_the_first_sample :
  let self := _compute_costs sample_symbol sample_band sample_level
                sample_version (text "111A111") __init__ in
  (dpv self 5 1 1
     + fst (transition sample_level sample_version (text "111A111") 5 1 1 0)
     = dpv self 6 0 1 /\
   parent_of self 6 0 1 = (5, 1, 0) /\
   dpv self 7 0 0 = dpv self 7 1 0 /\
   Best.index (_find_best self (text "111A111")) = (7, 0, 0)) /\
  relax sample_symbol sample_band sample_level sample_version (text "111A111")
    5 1 1 self 0 = self /\
  exists mb ub, (mb < 4)%nat /\ (ub < 3)%nat /\
    Best.index (_find_best self (text "111A111"))
      = (len (text "111A111"), Z.of_nat mb, Z.of_nat ub) /\
    Best.cost (_find_best self (text "111A111"))
      = dpv self (List.length (text "111A111")) mb ub /\
    (forall m' u', (m' < 4)%nat -> (u' < 3)%nat ->
       Best.cost (_find_best self (text "111A111"))
       <= dpv self (List.length (text "111A111")) m' u') /\
    (forall m' u', (m' < 4)%nat -> (u' < 3)%nat ->
       dpv self (List.length (text "111A111")) m' u'
       = Best.cost (_find_best self (text "111A111")) ->
       (mb < m')%nat \/ (mb = m' /\ (ub <= u')%nat)).
Proof.
  intros self.
  assert (L : linked self).
  { apply linked_compute_costs; [vm_compute; discriminate | exact linked_init]. }
  split; [repeat split; vm_compute; reflexivity|].
  apply (ties_keep_the_first sample_symbol sample_band sample_level
           sample_version (text "111A111") self 5 1 1 0 0 0).
  - exact (linked_dp _ L).
  - exact (linked_parents _ L).
  - vm_compute. discriminate.
  - simpl. lia.
  - lia.
  - lia.
  - lia.
  - vm_compute. reflexivity.
  - lia.
  - lia.
  - vm_compute. reflexivity.
Defined.

Lemma capacity_is_enforced_sample :
  (Best.cost (_find_best
                (_compute_costs sample_symbol sample_band sample_level
                   sample_version (text "abcdef") __init__) (text "abcdef"))
     > number_of_data_bits sample_version level_M ->
   compute sample_symbol sample_band sample_level sample_versions
     6 __init__ (text "abcdef") "R7x43" level_M
   = Some (_compute_costs sample_symbol sample_band sample_level
             sample_version (text "abcdef") __init__, DataTooLongError)) /\
  (Best.cost (_find_best
                (_compute_costs sample_symbol sample_band sample_level
                   sample_version (text "abcdef") __init__) (text "abcdef"))
     <= number_of_data_bits sample_version level_M ->
   forall r,
     compute sample_symbol sample_band sample_level sample_versions
       6 __init__ (text "abcdef") "R7x43" level_M = Some r ->
     snd r <> DataTooLongError).
Proof.
  apply (capacity_is_enforced sample_symbol sample_band sample_level
           sample_versions 6 __init__ (text "abcdef") "R7x43" level_M
           sample_version).
  - scalar_text.
  - vm_compute. discriminate.
  - reflexivity.
Defined.

Lemma character_cap_is_checked_first_sample :
  compute sample_symbol sample_band sample_level sample_versions
    0 __init__ (repeat 48%N 361) "R7x43" level_M
  = Some (__init__, DataTooLongError).
Proof.
  apply (character_cap_is_checked_first sample_symbol sample_band
           sample_level sample_versions 0 __init__ (repeat 48%N 361)
           "R7x43" level_M).
  vm_compute. reflexivity.
Defined.

Lemma root_parents_are_not_their_index :
  parent_of (fold_left
               (base_case sample_level sample_version)
               (seq 0 (List.length encoders)) __init__) 0 1 0
  <> (0, 1, 0).
Proof. vm_compute. discriminate. Qed.

Lemma root_parents_hold_origin_sample :
  parent_of (fold_left
               (base_case sample_level sample_version)
               (seq 0 (List.length encoders)) __init__) 0 1 0
  = (0, 0, 0).
Proof.
  apply (root_parents_hold_origin sample_level sample_version __init__ 1).
  - apply shaped_repeat.
  - lia.
Defined.

Lemma empty_input_gives_no_segment_sample :
  compute sample_symbol sample_band sample_level sample_versions
    0 __init__ [] "R7x43" level_M
  = Some (_compute_costs sample_symbol sample_band sample_level
            sample_version [] __init__, Ok []).
Proof.
  apply (empty_input_gives_no_segment sample_symbol sample_band sample_level
           sample_versions 0 __init__ "R7x43" level_M sample_version Kanji).
  - exact linked_init.
  - reflexivity.
  - reflexivity.
  - vm_compute. discriminate.
Defined.

(** C8: the tables are not reinitialised between calls.  After
    [compute("1", "R7x43", M)] the same instance keeps the cost 11 of the
    Numeric cell of row 1, and [compute("a", "R7x43", M)] on it returns
    "a" as a Numeric segment, which the Numeric encoder does not accept;
    a fresh instance returns "a" as a Byte segment. *)
Theorem reuse_changes_the_result :
  compute sample_symbol sample_band sample_level sample_versions
    1 __init__ (text "1") "R7x43" level_M
  = Some (_compute_costs sample_symbol sample_band sample_level
            sample_version (text "1") __init__,
          Ok [Segment.mk (text "1") Numeric]) /\
  option_map snd
    (compute sample_symbol sample_band sample_level sample_versions
       1 (_compute_costs sample_symbol sample_band sample_level
            sample_version (text "1") __init__)
       (text "a") "R7x43" level_M)
  = Some (Ok [Segment.mk (text "a") Numeric]) /\
  option_map snd
    (compute sample_symbol sample_band sample_level sample_versions
       1 __init__ (text "a") "R7x43" level_M)
  = Some (Ok [Segment.mk (text "a") Byte]) /\
  NumericEncoder.is_valid_characters (text "a") = false.
Proof. repeat split; vm_compute; reflexivity. Qed.


Lemma reuse_after_empty_input_sample :
  option_map snd
    (compute sample_symbol sample_band sample_level sample_versions
       1 (_compute_costs sample_symbol sample_band sample_level
            sample_version [] __init__) (text "a") "R7x43" level_M)
  = option_map snd
      (compute sample_symbol sample_band sample_level sample_versions
         1 __init__ (text "a") "R7x43" level_M).
Proof.
  apply (reuse_after_empty_input sample_symbol sample_band sample_level
           sample_versions 0 1 "R7x43" level_M _ (Ok []) (text "a") "R7x43" level_M).
  vm_compute. reflexivity.
Defined.

Lemma byte_length_differs_from_encode :
  Z.of_nat (String.length (ByteEncoder.encode (text "aaaaaaaa") 3))
  <> ByteEncoder.length (text "aaaaaaaa") 3.
Proof. vm_compute. discriminate. Qed.

Lemma byte_length_is_encode_length_sample :
  Z.of_nat (String.length (ByteEncoder.encode (text "abc") 3))
  = ByteEncoder.length (text "abc") 3.
Proof.
  apply (byte_length_is_encode_length (text "abc") 3).
  - scalar_text.
  - lia.
  - vm_compute. reflexivity.
Defined.

Lemma byte_encode_length_sample :
  Z.of_nat (String.length (ByteEncoder.encode (text "abc") 4))
  = 3 + Z.max 4 (Z.of_nat (String.length
                             (bin (N.of_nat (List.length (text "abc"))))))
    + 8 * len (utf8 (text "abc")).
Proof.
  apply (byte_encode_length (text "abc") 4). scalar_text.
Defined.

Lemma byte_length_bounds_encode_sample :
  ByteEncoder.length (text "abc") 1
    <= Z.of_nat (String.length (ByteEncoder.encode (text "abc") 1)) /\
  (ByteEncoder.length (text "abc") 1
     = Z.of_nat (String.length (ByteEncoder.encode (text "abc") 1))
   <-> Z.of_nat (String.length (bin (N.of_nat (List.length (text "abc")))))
       <= 1).
Proof.
  apply (byte_length_bounds_encode (text "abc") 1). scalar_text.
Defined.

Lemma byte_encoded_bits_injective_sample :
  text "ab" = [97; 98]%N.
Proof.
  apply (byte_encoded_bits_injective (text "ab") [97; 98]%N).
  - scalar_text.
  - scalar_text.
  - reflexivity.
Defined.

Lemma byte_encode_count_reads_back_sample :
  bits_value 0 (substring 3 (Z.to_nat 4) (ByteEncoder.encode (text "abc") 4))
  = N.of_nat (List.length (text "abc")).
Proof.
  apply (byte_encode_count_reads_back (text "abc") 4).
  vm_compute. discriminate.
Defined.

Lemma compute_length_missing_version_sample :
  compute_length sample_level sample_versions
    [Segment.mk (text "12") Numeric] "R9x99"
  = KeyError.
Proof.
  apply (compute_length_missing_version sample_level sample_versions
           [Segment.mk (text "12") Numeric] "R9x99").
  reflexivity.
Defined.


Lemma unknown_version_is_a_key_error_sample :
  compute sample_symbol sample_band sample_level sample_versions
    3 __init__ (text "12a") "R9x99" level_M
  = Some (__init__, KeyError).
Proof.
  apply (unknown_version_is_a_key_error sample_symbol sample_band
           sample_level sample_versions 3 __init__ (text "12a") "R9x99"
           level_M).
  - vm_compute. discriminate.
  - reflexivity.
Defined.

Lemma compute_segments_merges_runs_sample :
  exists segs,
    _compute_segments [(1, 0, 1); (2, 0, 2); (3, 2, 0)] (text "12a")
      = Ok segs /\
    List.concat (map Segment.data segs)
      = map (fun p : cell => nth (Z.to_nat (fst (fst p) - 1)) (text "12a") 0%N)
          [(1, 0, 1); (2, 0, 2); (3, 2, 0)] /\
    modes_of segs
      = map (fun p : cell => encoder_at (Z.to_nat (snd (fst p))))
          [(1, 0, 1); (2, 0, 2); (3, 2, 0)] /\
    merged segs.
Proof.
  apply (compute_segments_merges_runs (text "12a")
           [(1, 0, 1); (2, 0, 2); (3, 2, 0)]).
  repeat (apply Forall_cons;
          [unfold entry_ok; vm_compute; repeat split; discriminate|]).
  apply Forall_nil.
Defined.


Lemma compute_keeps_the_rest_sample :
  let self' := _compute_costs sample_symbol sample_band sample_level
                 sample_version (text "12a") __init__ in
  (forall n mode u, (List.length (text "12a") < n)%nat ->
     dpv self' n mode u = dpv __init__ n mode u /\
     parent_of self' n mode u = parent_of __init__ n mode u) /\
  (forall n mode u, (1 <= n)%nat ->
     dpv self' n mode u <= dpv __init__ n mode u) /\
  parent_of self' 360 3 2 = parent_of __init__ 360 3 2.
Proof.
  intros self'.
  apply (compute_keeps_the_rest sample_symbol sample_band sample_level
           sample_versions 3 __init__ (text "12a") "R7x43" level_M self'
           (Ok [Segment.mk (text "12") Numeric; Segment.mk (text "a") Byte])).
  - exact linked_init.
  - vm_compute. reflexivity.
Defined.

Lemma find_best_sentinel_sample :
  Best.index (_find_best __init__ (text "a")) = (-1, -1, -1) <->
  (forall mode u, (mode < 4)%nat -> (u < 3)%nat ->
     INF <= dpv __init__ (List.length (text "a")) mode u).
Proof.
  apply (find_best_sentinel __init__ (text "a")).
  - exact (linked_dp _ linked_init).
  - vm_compute. discriminate.
Defined.

Lemma compute_loops_from_the_sentinel_sample :
  compute sample_symbol sample_band sample_level wide_versions
    1000 __init__ (text "a") "R7x43" level_M
  = None.
Proof.
  apply (compute_loops_from_the_sentinel sample_symbol sample_band
           sample_level wide_versions __init__ (text "a") "R7x43" level_M
           wide_version).
  - exact usable_init.
  - reflexivity.
  - vm_compute. discriminate.
  - intros mode u Hm Hu.
    destruct mode as [|[|[|[|mode]]]]; try lia;
      destruct u as [|[|[|u]]]; try lia; vm_compute; discriminate.
  - vm_compute. discriminate.
Defined.

Lemma reconstruct_path_visits_every_row_sample :
  let self := _compute_costs sample_symbol sample_band sample_level
                sample_version (text "12a") __init__ in
  exists p,
    _reconstruct_path 3 self (Z.of_nat 3, Z.of_nat 2, Z.of_nat 0)
      = Some (Ok p) /\
    List.length p = 3%nat /\
    (forall i, (i < 3)%nat ->
       fst (fst (nth i p (0, 0, 0))) = Z.of_nat (i + 1)) /\
    Forall (fun q : cell => 0 <= snd (fst q) < 4 /\ 0 <= snd q < 3) p.
Proof.
  intros self.
  apply (reconstruct_path_visits_every_row 3 self 3 2 0).
  - apply linked_compute_costs; [vm_compute; discriminate | exact linked_init].
  - lia.
  - lia.
  - lia.
  - right. vm_compute. discriminate.
  - lia.
Defined.

Lemma costs_grow_along_parents_sample :
  let self := _compute_costs sample_symbol sample_band sample_level
                sample_version (text "12a") __init__ in
  exists mode0 u0,
    (mode0 < 4)%nat /\ (u0 < 3)%nat /\
    parent_of self (2 + 1) 2 0
      = (Z.of_nat 2, Z.of_nat mode0, Z.of_nat u0) /\
    dpv self 2 mode0 u0 <= dpv self (2 + 1) 2 0.
Proof.
  intros self.
  apply (costs_grow_along_parents sample_symbol sample_band sample_level
           sample_version (text "12a") 2 2 0).
  - exact sample_widths_ok.
  - vm_compute. discriminate.
  - simpl. lia.
  - lia.
  - lia.
  - vm_compute. discriminate.
Defined.

Lemma more_capacity_same_segments_sample :
  compute sample_symbol sample_band sample_level sample_versions
    2 __init__ (text "12") "R7x43" level_M
  = Some (_compute_costs sample_symbol sample_band sample_level
            sample_version (text "12") __init__,
          Ok [Segment.mk (text "12") Numeric]).
Proof.
  apply (more_capacity_same_segments sample_symbol sample_band sample_level
           sample_versions 2 __init__ (text "12") "R7x43" level_H level_M
           sample_version).
  - reflexivity.
  - vm_compute. discriminate.
  - vm_compute. reflexivity.
Defined.


Lemma repeated_call_same_result_sample :
  let self := _compute_costs sample_symbol sample_band sample_level
                sample_version (text "12a") __init__ in
  compute sample_symbol sample_band sample_level sample_versions
    3 self (text "12a") "R7x43" level_M
  = Some (self,
          Ok [Segment.mk (text "12") Numeric; Segment.mk (text "a") Byte]).
Proof.
  intros self.
  apply (repeated_call_same_result sample_symbol sample_band sample_level
           sample_versions 3 (text "12a") "R7x43" level_M self).
  vm_compute. reflexivity.
Defined.

Lemma reuse_never_costs_more_sample :
  Best.cost
    (_find_best
       (_compute_costs sample_symbol sample_band sample_level sample_version
          (text "a")
          (_compute_costs sample_symbol sample_band sample_level
             sample_version (text "1") __init__))
       (text "a"))
  <= Best.cost
       (_find_best
          (_compute_costs sample_symbol sample_band sample_level
             sample_version (text "a") __init__)
          (text "a")).
Proof.
  apply (reuse_never_costs_more sample_symbol sample_band sample_level
           sample_version (text "a")
           (_compute_costs sample_symbol sample_band sample_level
              sample_version (text "1") __init__)).
  - apply linked_compute_costs; [vm_compute; discriminate | exact linked_init].
  - discriminate.
  - vm_compute. discriminate.
Defined.
